(** * Checked fixed-point assets: [asset] and [extended_asset]

    A shallow embedding of [libraries/eosiolib/asset.hpp] (namespace [lemon]):
    the [asset] value type with its checked arithmetic, its comparison
    operators and its textual rendering, and [extended_asset], which pairs an
    asset with the account that issued it.

    Conventions of the embedding.
    - An [int64_t] is a [Z] together with the wrap-around of the two's
      complement representation written out ([Int.wrap64]); [int128_t]
      likewise ([Int.wrap128]).  C++ [/] and [%] are [Z.quot] and [Z.rem].
    - [lemon::check(cond, msg)] aborts the running action with [msg] when
      [cond] is false.  A [const] function is a computation in [result]; a
      member function that writes to its receiver is a computation in
      [exec S], which records the receiver as it is in memory at the moment
      the action aborts.
    - [symbol], [name], [check] and the [EOSLIB_SERIALIZE] machinery live in
      headers that are included by [asset.hpp] but are not part of the
      sources at hand; they are modelled from the specification and marked
      as such. *)

From Stdlib Require Import ZArith Lia List String Ascii Bool.
From Stdlib Require Import DecimalString.
From Stdlib Require DecimalFacts DecimalPos.
From coqutil Require Import Byte Word.LittleEndianList.
Import ListNotations.

Local Open Scope Z_scope.

(* ------------------------------------------------------------------ *)
(** ** Fixed-width integers *)

Module Int.

(** Reinterpretation of an integer as a [w]-bit two's complement value. *)
Definition wrap (w : Z) (x : Z) : Z :=
  (x + 2 ^ (w - 1)) mod 2 ^ w - 2 ^ (w - 1).

Definition wrap64 : Z -> Z := wrap 64.
Definition wrap128 : Z -> Z := wrap 128.

(** [std::numeric_limits<int64_t>::min()] and [max()]. *)
Definition int64_min : Z := - 2 ^ 63.
Definition int64_max : Z := 2 ^ 63 - 1.

Definition is_int64 (x : Z) : Prop := int64_min <= x <= int64_max.
Definition is_uint64 (x : Z) : Prop := 0 <= x < 2 ^ 64.

(** The arithmetic of [int64_t] operands. *)
Definition add64 (a b : Z) : Z := wrap64 (a + b).
Definition sub64 (a b : Z) : Z := wrap64 (a - b).
Definition neg64 (a : Z) : Z := wrap64 (- a).
Definition mul64 (a b : Z) : Z := wrap64 (a * b).
Definition div64 (a b : Z) : Z := wrap64 (Z.quot a b).
Definition rem64 (a b : Z) : Z := wrap64 (Z.rem a b).

(** [(int128_t)a * (int128_t)b]. *)
Definition mul128 (a b : Z) : Z := wrap128 (a * b).

End Int.

(* ------------------------------------------------------------------ *)
(** ** The abort convention of [lemon::check] *)

(** What a [const] function hands back to its caller: a value, or the
    message the action aborted with. *)
Inductive result (A : Type) : Type :=
| Ok (a : A)
| Error (msg : string).
Arguments Ok {A} a.
Arguments Error {A} msg.

(** What a call on a receiver of type [S] leaves behind: the returned value
    and the receiver, or the abort message and the receiver as the failing
    [check] found it. *)
Inductive outcome (S A : Type) : Type :=
| Returns (a : A) (this : S)
| Aborts (msg : string) (this : S).
Arguments Returns {S A} a this.
Arguments Aborts {S A} msg this.

Definition exec (S A : Type) : Type := S -> outcome S A.

(** Both kinds of computation sequence statements and can [check]. *)
Class Checked (M : Type -> Type) : Type := {
  ret : forall {A : Type}, A -> M A;
  bind : forall {A B : Type}, M A -> (A -> M B) -> M B;
  check : bool -> string -> M unit
}.

#[export] Instance Checked_result : Checked result := {|
  ret := fun A a => Ok a;
  bind := fun A B m k =>
    match m with
    | Ok a => k a
    | Error msg => Error msg
    end;
  check := fun cond msg => if cond then Ok tt else Error msg
|}.

#[export] Instance Checked_exec (S : Type) : Checked (exec S) := {|
  ret := fun A a this => Returns a this;
  bind := fun A B m k this =>
    match m this with
    | Returns a this' => k a this'
    | Aborts msg this' => Aborts msg this'
    end;
  check := fun cond msg this => if cond then Returns tt this else Aborts msg this
|}.

Declare Scope checked_scope.
Delimit Scope checked_scope with checked.
Notation "x <- c ;; k" := (bind c (fun x => k))
  (at level 61, c at next level, right associativity) : checked_scope.
Notation "c ;; k" := (bind c (fun _ => k))
  (at level 61, right associativity) : checked_scope.
Local Open Scope checked_scope.

(** Reading and writing the receiver. *)
Definition get {S : Type} : exec S S := fun this => Returns this this.
Definition put {S : Type} (s : S) : exec S unit := fun _ => Returns tt s.

(** [T result = a; result.op(...); return result;]: the operation runs on a
    local copy, which is returned when the operation returns and discarded
    when it aborts. *)
Definition on_copy {S A : Type} (a : S) (op : exec S A) : result S :=
  match op a with
  | Returns _ r => Ok r
  | Aborts msg _ => Error msg
  end.

(** The error taxonomy of the specification. *)
Inductive error_kind : Type :=
| RangeError
| InvalidSymbolError
| SymbolMismatchError
| OwnershipMismatchError
| DivideByZeroError
| OverflowError.

(** The messages the header passes to [check], sorted into the taxonomy. *)
Definition error_table : list (string * error_kind) :=
  [ ("magnitude of asset amount must be less than 2^62", RangeError);
    ("invalid symbol name", InvalidSymbolError);
    ("attempt to subtract asset with different symbol", SymbolMismatchError);
    ("subtraction underflow", RangeError);
    ("subtraction overflow", RangeError);
    ("attempt to add asset with different symbol", SymbolMismatchError);
    ("addition underflow", RangeError);
    ("addition overflow", RangeError);
    ("multiplication overflow", RangeError);
    ("multiplication underflow", RangeError);
    ("divide by zero", DivideByZeroError);
    ("signed division overflow", OverflowError);
    ("comparison of assets with different symbols is not allowed",
     SymbolMismatchError);
    ("type mismatch", OwnershipMismatchError) ]%string.

Fixpoint lookup_kind (tbl : list (string * error_kind)) (msg : string)
  : option error_kind :=
  match tbl with
  | [] => None
  | (m, k) :: tbl' => if String.eqb m msg then Some k else lookup_kind tbl' msg
  end.

Definition kind_of (msg : string) : option error_kind :=
  lookup_kind error_table msg.

(** A [const] function fails with an error of kind [k]. *)
Definition fails {A : Type} (r : result A) (k : error_kind) : Prop :=
  exists msg, r = Error msg /\ kind_of msg = Some k.

(** A call on a receiver aborts with an error of kind [k]. *)
Definition aborts {S A : Type} (o : outcome S A) (k : error_kind) : Prop :=
  exists msg this, o = Aborts msg this /\ kind_of msg = Some k.

(** The receiver a call leaves behind, whichever way it ends. *)
Definition receiver {S A : Type} (o : outcome S A) : S :=
  match o with
  | Returns _ this => this
  | Aborts _ this => this
  end.

(* ------------------------------------------------------------------ *)
(** ** Symbols and account names *)

Module Symbol.

(** Modelled from the spec: [symbol.hpp] is not among the sources.  A
    symbol is a precision together with a code; the code is a short token
    of upper-case letters. *)
Record symbol : Type := mk {
  precision : Z;
  code : string
}.

Definition is_upper (c : ascii) : bool :=
  let n := Z.of_N (N_of_ascii c) in (65 <=? n) && (n <=? 90).

Fixpoint all_upper (s : string) : bool :=
  match s with
  | EmptyString => true
  | String c s' => is_upper c && all_upper s'
  end.

(** Modelled from the spec: the code is non-empty, at most 7 characters
    long and upper-case only, and the precision is between 0 and 18. *)
Definition is_valid (s : symbol) : bool :=
  (0 <? Z.of_nat (String.length (code s)))
  && (Z.of_nat (String.length (code s)) <=? 7)
  && all_upper (code s)
  && (0 <=? precision s) && (precision s <=? 18).

(** Modelled from the spec: equality compares (precision, code). *)
Definition eqb (a b : symbol) : bool :=
  (precision a =? precision b) && String.eqb (code a) (code b).

(** The default-constructed symbol: no precision, no code. *)
Definition default : symbol := mk 0 "".

End Symbol.

(** Modelled from the spec: an account identity is an unsigned 64-bit value
    ([name::value]), compared by value. *)
Definition name : Type := Z.
Definition name_eqb (a b : name) : bool := Z.eqb a b.

(** Modelled from the spec: an extended symbol is a symbol together with the
    account that owns it. *)
Record extended_symbol : Type := mk_extended_symbol {
  get_symbol : Symbol.symbol;
  get_contract : name
}.

(* ------------------------------------------------------------------ *)
(** ** [struct asset] *)

Module Asset.

Record asset : Type := mk {
  amount : Z;
  symbol : Symbol.symbol
}.

(** [static constexpr int64_t max_amount = (1LL << 62) - 1]. *)
Definition max_amount : Z := Z.shiftl 1 62 - 1.

(** The amounts an asset may carry. *)
Definition within (x : Z) : Prop := - max_amount <= x <= max_amount.

(** [asset() {}]: amount 0 and the default symbol; nothing is checked. *)
Definition default : asset := mk 0 Symbol.default.

Definition is_amount_within_range (this : asset) : bool :=
  (- max_amount <=? amount this) && (amount this <=? max_amount).

Definition is_valid (this : asset) : bool :=
  is_amount_within_range this && Symbol.is_valid (symbol this).

(** The member initialisers and the body of [asset(int64_t a, symbol s)]. *)
Definition ctor_body : exec asset unit :=
  this <- get ;;
  check (is_amount_within_range this)
        "magnitude of asset amount must be less than 2^62" ;;
  this <- get ;;
  check (Symbol.is_valid (symbol this)) "invalid symbol name".

Definition ctor (a : Z) (s : Symbol.symbol) : result asset :=
  on_copy (mk a s) ctor_body.

Definition set_amount (a : Z) : exec asset unit :=
  this <- get ;;
  put (mk a (symbol this)) ;;
  this <- get ;;
  check (is_amount_within_range this)
        "magnitude of asset amount must be less than 2^62".

(** [asset operator-() const]. *)
Definition op_neg (this : asset) : asset :=
  let r := this in
  mk (Int.neg64 (amount r)) (symbol r).

(** [asset& operator-=(const asset& a)]. *)
Definition op_sub_assign (a : asset) : exec asset unit :=
  this <- get ;;
  check (Symbol.eqb (symbol a) (symbol this))
        "attempt to subtract asset with different symbol" ;;
  this <- get ;;
  put (mk (Int.sub64 (amount this) (amount a)) (symbol this)) ;;
  this <- get ;;
  check (- max_amount <=? amount this) "subtraction underflow" ;;
  this <- get ;;
  check (amount this <=? max_amount) "subtraction overflow".

(** [asset& operator+=(const asset& a)]. *)
Definition op_add_assign (a : asset) : exec asset unit :=
  this <- get ;;
  check (Symbol.eqb (symbol a) (symbol this))
        "attempt to add asset with different symbol" ;;
  this <- get ;;
  put (mk (Int.add64 (amount this) (amount a)) (symbol this)) ;;
  this <- get ;;
  check (- max_amount <=? amount this) "addition underflow" ;;
  this <- get ;;
  check (amount this <=? max_amount) "addition overflow".

(** [friend asset operator+(const asset& a, const asset& b)]. *)
Definition op_add (a b : asset) : result asset :=
  on_copy a (op_add_assign b).

(** [friend asset operator-(const asset& a, const asset& b)]. *)
Definition op_sub (a b : asset) : result asset :=
  on_copy a (op_sub_assign b).

(** [asset& operator*=(int64_t a)]. *)
Definition op_mul_assign (a : Z) : exec asset unit :=
  this <- get ;;
  let tmp := Int.mul128 (amount this) a in
  check (tmp <=? max_amount) "multiplication overflow" ;;
  check (tmp >=? - max_amount) "multiplication underflow" ;;
  this <- get ;;
  put (mk (Int.wrap64 tmp) (symbol this)).

(** [friend asset operator*(const asset& a, int64_t b)]. *)
Definition op_mul (a : asset) (b : Z) : result asset :=
  on_copy a (op_mul_assign b).

(** [friend asset operator*(int64_t b, const asset& a)]. *)
Definition op_mul_left (b : Z) (a : asset) : result asset :=
  on_copy a (op_mul_assign b).

(** [asset& operator/=(int64_t a)]. *)
Definition op_div_assign (a : Z) : exec asset unit :=
  check (negb (a =? 0)) "divide by zero" ;;
  this <- get ;;
  check (negb ((amount this =? Int.int64_min) && (a =? -1)))
        "signed division overflow" ;;
  this <- get ;;
  put (mk (Int.div64 (amount this) a) (symbol this)).

(** [friend asset operator/(const asset& a, int64_t b)]. *)
Definition op_div (a : asset) (b : Z) : result asset :=
  on_copy a (op_div_assign b).

(** [friend int64_t operator/(const asset& a, const asset& b)]. *)
Definition op_div_asset (a b : asset) : result Z :=
  check (negb (amount b =? 0)) "divide by zero" ;;
  check (Symbol.eqb (symbol a) (symbol b))
        "comparison of assets with different symbols is not allowed" ;;
  ret (Int.div64 (amount a) (amount b)).

Definition op_eq (a b : asset) : result bool :=
  check (Symbol.eqb (symbol a) (symbol b))
        "comparison of assets with different symbols is not allowed" ;;
  ret (amount a =? amount b).

Definition op_ne (a b : asset) : result bool :=
  r <- op_eq a b ;;
  ret (negb r).

Definition op_lt (a b : asset) : result bool :=
  check (Symbol.eqb (symbol a) (symbol b))
        "comparison of assets with different symbols is not allowed" ;;
  ret (amount a <? amount b).

Definition op_le (a b : asset) : result bool :=
  check (Symbol.eqb (symbol a) (symbol b))
        "comparison of assets with different symbols is not allowed" ;;
  ret (amount a <=? amount b).

Definition op_gt (a b : asset) : result bool :=
  check (Symbol.eqb (symbol a) (symbol b))
        "comparison of assets with different symbols is not allowed" ;;
  ret (amount a >? amount b).

Definition op_ge (a b : asset) : result bool :=
  check (Symbol.eqb (symbol a) (symbol b))
        "comparison of assets with different symbols is not allowed" ;;
  ret (amount a >=? amount b).

(** *** [std::string to_string() const] *)

(** [while( p > 0 ) { p10 *= 10; --p; }] *)
Fixpoint pow10_loop (p : nat) (p10 : Z) : Z :=
  match p with
  | O => p10
  | S p' => pow10_loop p' (Int.mul64 p10 10)
  end.

(** The [char] that [(change % 10) + '0'] is stored as. *)
Definition digit_char (change : Z) : ascii :=
  ascii_of_N (Z.to_N ((Int.rem64 change 10 + 48) mod 256)).

(** [for( i = p - 1; i >= 0; --i ) { fraction[i] = ...; change /= 10; }]:
    the slots are filled from the last one down, [fraction] holds the
    slots already written. *)
Fixpoint fraction_loop (i : nat) (change : Z) (fraction : string) : string :=
  match i with
  | O => fraction
  | S i' =>
      fraction_loop i' (Int.div64 change 10)
                    (String (digit_char change) fraction)
  end.

(** The conversion [%lld]. *)
Definition lld (x : Z) : string := NilZero.string_of_int (Z.to_int x).

(** [snprintf(str, size, ...)] keeps at most [size - 1] characters. *)
Definition snprintf (size : Z) (s : string) : string :=
  substring 0 (Z.to_nat (size - 1)) s.

Definition to_string (this : asset) : string :=
  let p := Symbol.precision (symbol this) in
  let p10 := pow10_loop (Z.to_nat p) 1 in
  let invert := if amount this <? 0 then -1 else 1 in
  let negative := amount this <? 0 in
  let change := Int.mul64 (Int.rem64 (amount this) p10) invert in
  let fraction := fraction_loop (Z.to_nat p) change EmptyString in
  let body :=
    (lld (Int.div64 (amount this) p10) ++ "." ++ fraction ++ " "
     ++ Symbol.code (symbol this))%string in
  snprintf (p + 32) (if negative then ("-" ++ body)%string else body).

End Asset.

(* ------------------------------------------------------------------ *)
(** ** [struct extended_asset] *)

Module ExtendedAsset.

Record extended_asset : Type := mk {
  quantity : Asset.asset;
  contract : name
}.

(** [extended_asset(asset a, name c)]. *)
Definition ctor (a : Asset.asset) (c : name) : extended_asset := mk a c.

(** [extended_asset(int64_t v, extended_symbol s)]: the quantity goes
    through the checks of the asset constructor. *)
Definition ctor_of_symbol (v : Z) (s : extended_symbol)
  : result extended_asset :=
  q <- Asset.ctor v (get_symbol s) ;;
  ret (mk q (get_contract s)).

Definition get_extended_symbol (this : extended_asset) : extended_symbol :=
  mk_extended_symbol (Asset.symbol (quantity this)) (contract this).

(** A member call on [a.quantity]. *)
Definition on_quantity {A : Type} (op : exec Asset.asset A)
  : exec extended_asset A :=
  fun a =>
    match op (quantity a) with
    | Returns x q => Returns x (mk q (contract a))
    | Aborts msg q => Aborts msg (mk q (contract a))
    end.

(** [extended_asset operator-() const]. *)
Definition op_neg (this : extended_asset) : extended_asset :=
  mk (Asset.op_neg (quantity this)) (contract this).

(** [friend extended_asset operator-(a, b)]. *)
Definition op_sub (a b : extended_asset) : result extended_asset :=
  check (name_eqb (contract a) (contract b)) "type mismatch" ;;
  q <- Asset.op_sub (quantity a) (quantity b) ;;
  ret (mk q (contract a)).

(** [friend extended_asset operator+(a, b)]. *)
Definition op_add (a b : extended_asset) : result extended_asset :=
  check (name_eqb (contract a) (contract b)) "type mismatch" ;;
  q <- Asset.op_add (quantity a) (quantity b) ;;
  ret (mk q (contract a)).

(** [friend extended_asset& operator+=(extended_asset& a, b)]; the
    receiver is [a]. *)
Definition op_add_assign (b : extended_asset) : exec extended_asset unit :=
  a <- get ;;
  check (name_eqb (contract a) (contract b)) "type mismatch" ;;
  on_quantity (Asset.op_add_assign (quantity b)).

(** [friend extended_asset& operator-=(extended_asset& a, b)]. *)
Definition op_sub_assign (b : extended_asset) : exec extended_asset unit :=
  a <- get ;;
  check (name_eqb (contract a) (contract b)) "type mismatch" ;;
  on_quantity (Asset.op_sub_assign (quantity b)).

Definition op_lt (a b : extended_asset) : result bool :=
  check (name_eqb (contract a) (contract b)) "type mismatch" ;;
  Asset.op_lt (quantity a) (quantity b).

(** [std::tie(a.quantity, a.contract) == std::tie(b.quantity, b.contract)]:
    the tuples are compared member by member, from the first on
    ([get<0>(x) == get<0>(y) && get<1>(x) == get<1>(y)]). *)
Definition op_eq (a b : extended_asset) : result bool :=
  q <- Asset.op_eq (quantity a) (quantity b) ;;
  ret (q && name_eqb (contract a) (contract b)).

(** [std::tie(...) != std::tie(...)] is the negation of [==] on tuples. *)
Definition op_ne (a b : extended_asset) : result bool :=
  r <- op_eq a b ;;
  ret (negb r).

Definition op_le (a b : extended_asset) : result bool :=
  check (name_eqb (contract a) (contract b)) "type mismatch" ;;
  Asset.op_le (quantity a) (quantity b).

Definition op_ge (a b : extended_asset) : result bool :=
  check (name_eqb (contract a) (contract b)) "type mismatch" ;;
  Asset.op_ge (quantity a) (quantity b).

End ExtendedAsset.

(* ------------------------------------------------------------------ *)
(** ** Binary encoding *)

Module Serialize.

(** Modelled from the spec: [serialize.hpp] and the [datastream] it writes
    to are not among the sources.  [EOSLIB_SERIALIZE(T, (f1)(f2))] writes
    the fields of [T] in the order listed, without length prefix, and reads
    them back in the same order.  A decoder consumes a prefix of the input
    and returns the value with the bytes that remain. *)
Definition decoder (A : Type) : Type := list byte -> option (A * list byte).

(** Modelled from the spec: an 8-byte little-endian word. *)
Definition write_word (w : Z) : list byte := le_split 8 w.

Definition read_word : decoder Z :=
  fun bs =>
    if (8 <=? List.length bs)%nat
    then Some (le_combine (firstn 8 bs), skipn 8 bs)
    else None.

(** Modelled from the spec: an amount is an 8-byte signed little-endian
    integer. *)
Definition encode_int64 (x : Z) : list byte := write_word x.

Definition decode_int64 : decoder Z :=
  fun bs =>
    match read_word bs with
    | Some (w, rest) => Some (Int.wrap64 w, rest)
    | None => None
    end.

(** Modelled from the spec: the code characters occupy ascending bytes,
    unused trailing slots are zero. *)
Fixpoint code_raw (s : string) : Z :=
  match s with
  | EmptyString => 0
  | String c s' => Z.lor (Z.of_N (N_of_ascii c)) (Z.shiftl (code_raw s') 8)
  end.

Fixpoint code_of_raw (slots : nat) (v : Z) : string :=
  match slots with
  | O => EmptyString
  | S slots' =>
      if Z.land v 255 =? 0 then EmptyString
      else String (ascii_of_N (Z.to_N (Z.land v 255)))
                  (code_of_raw slots' (Z.shiftr v 8))
  end.

(** Modelled from the spec: a symbol is a single 8-byte little-endian
    word, the precision in the lowest byte and the code above it. *)
Definition symbol_raw (s : Symbol.symbol) : Z :=
  Z.lor (Symbol.precision s) (Z.shiftl (code_raw (Symbol.code s)) 8).

Definition symbol_of_raw (w : Z) : Symbol.symbol :=
  Symbol.mk (Z.land w 255) (code_of_raw 7 (Z.shiftr w 8)).

Definition encode_symbol (s : Symbol.symbol) : list byte :=
  write_word (symbol_raw s).

Definition decode_symbol : decoder Symbol.symbol :=
  fun bs =>
    match read_word bs with
    | Some (w, rest) => Some (symbol_of_raw w, rest)
    | None => None
    end.

(** Modelled from the spec: an account identity is a fixed-width word. *)
Definition encode_name (n : name) : list byte := write_word n.

Definition decode_name : decoder name := read_word.

(** [EOSLIB_SERIALIZE( asset, (amount)(symbol) )]. *)
Definition encode_asset (a : Asset.asset) : list byte :=
  encode_int64 (Asset.amount a) ++ encode_symbol (Asset.symbol a).

Definition decode_asset : decoder Asset.asset :=
  fun bs =>
    match decode_int64 bs with
    | Some (amount, bs1) =>
        match decode_symbol bs1 with
        | Some (symbol, bs2) => Some (Asset.mk amount symbol, bs2)
        | None => None
        end
    | None => None
    end.

(** [EOSLIB_SERIALIZE( extended_asset, (quantity)(contract) )]. *)
Definition encode_extended_asset (x : ExtendedAsset.extended_asset)
  : list byte :=
  encode_asset (ExtendedAsset.quantity x)
  ++ encode_name (ExtendedAsset.contract x).

Definition decode_extended_asset : decoder ExtendedAsset.extended_asset :=
  fun bs =>
    match decode_asset bs with
    | Some (quantity, bs1) =>
        match decode_name bs1 with
        | Some (contract, bs2) => Some (ExtendedAsset.mk quantity contract, bs2)
        | None => None
        end
    | None => None
    end.

End Serialize.

(* ------------------------------------------------------------------ *)
(** ** The assets the operations produce *)

Module Invariant.
Import Asset.

(** [produces P r]: [r] comes out of one successful operation of the
    header (construction, [set_amount], negation, addition, subtraction,
    scaling, division by an integer, by value or in place) whose asset
    operands all satisfy [P]. *)
Inductive produces (P : asset -> Prop) : asset -> Prop :=
| by_ctor a s r :
    ctor a s = Ok r -> produces P r
| by_set_amount this a r :
    P this -> set_amount a this = Returns tt r -> produces P r
| by_neg this :
    P this -> produces P (op_neg this)
| by_add a b r :
    P a -> P b -> op_add a b = Ok r -> produces P r
| by_sub a b r :
    P a -> P b -> op_sub a b = Ok r -> produces P r
| by_mul a s r :
    P a -> op_mul a s = Ok r -> produces P r
| by_mul_left s a r :
    P a -> op_mul_left s a = Ok r -> produces P r
| by_div a s r :
    P a -> op_div a s = Ok r -> produces P r
| by_add_assign this b r :
    P this -> P b -> op_add_assign b this = Returns tt r -> produces P r
| by_sub_assign this b r :
    P this -> P b -> op_sub_assign b this = Returns tt r -> produces P r
| by_mul_assign this s r :
    P this -> op_mul_assign s this = Returns tt r -> produces P r
| by_div_assign this s r :
    P this -> op_div_assign s this = Returns tt r -> produces P r.

(** The assets built by at most [n] nested successful operations,
    starting from constructions. *)
Fixpoint produced_in (n : nat) : asset -> Prop :=
  match n with
  | O => fun _ => False
  | S n' => produces (produced_in n')
  end.

Definition produced (r : asset) : Prop := exists n, produced_in n r.

(** The invariant of the data model. *)
Definition valid (a : asset) : Prop := is_valid a = true.

End Invariant.

(* ------------------------------------------------------------------ *)
(** ** Reading decimal digits *)

Module Decimals.

Definition is_digit (c : ascii) : bool :=
  let n := Z.of_N (N_of_ascii c) in (48 <=? n) && (n <=? 57).

Fixpoint all_digits (s : string) : bool :=
  match s with
  | EmptyString => true
  | String c s' => is_digit c && all_digits s'
  end.

(** The number a string of digits denotes, most significant digit first,
    continuing from [acc]. *)
Fixpoint value_of (acc : Z) (s : string) : Z :=
  match s with
  | EmptyString => acc
  | String c s' => value_of (10 * acc + (Z.of_N (N_of_ascii c) - 48)) s'
  end.

End Decimals.

(* ------------------------------------------------------------------ *)
(** ** Sample values *)

Definition SYS2 : Symbol.symbol := Symbol.mk 2 "SYS".
Definition TOK4 : Symbol.symbol := Symbol.mk 4 "TOK".

(* ------------------------------------------------------------------ *)
(** ** Facts about fixed-width integers *)

Module IntFacts.
Import Int.

Lemma wrap64_small (x : Z) : is_int64 x -> wrap64 x = x.
Proof.
  unfold is_int64, int64_min, int64_max, wrap64, wrap. intros H.
  change (64 - 1) with 63.
  rewrite Z.mod_small; lia.
Qed.

Lemma wrap64_is_int64 (x : Z) : is_int64 (wrap64 x).
Proof.
  unfold is_int64, int64_min, int64_max, wrap64, wrap.
  change (64 - 1) with 63.
  pose proof (Z.mod_pos_bound (x + 2 ^ 63) (2 ^ 64) ltac:(lia)). lia.
Qed.

Lemma wrap128_small (x : Z) : - 2 ^ 127 <= x < 2 ^ 127 -> wrap128 x = x.
Proof.
  unfold wrap128, wrap. intros H.
  change (128 - 1) with 127.
  rewrite Z.mod_small; lia.
Qed.

End IntFacts.

(* ------------------------------------------------------------------ *)
(** ** Facts about symbols and errors *)

Module SymbolFacts.

Lemma eqb_eq (a b : Symbol.symbol) : Symbol.eqb a b = true <-> a = b.
Proof.
  destruct a as [pa ca], b as [pb cb]. unfold Symbol.eqb. cbn.
  rewrite andb_true_iff, Z.eqb_eq, String.eqb_eq.
  split; [intros [-> ->]; reflexivity | intros H; inversion H; auto].
Qed.

Lemma eqb_refl (a : Symbol.symbol) : Symbol.eqb a a = true.
Proof. apply eqb_eq. reflexivity. Qed.

Lemma eqb_neq (a b : Symbol.symbol) : Symbol.eqb a b = false <-> a <> b.
Proof.
  rewrite <- eqb_eq. destruct (Symbol.eqb a b); split; congruence.
Qed.

End SymbolFacts.

(** Settles a goal [fails r k] or [aborts o k] once [r] or [o] has been
    computed to a literal abort. *)
Ltac failing :=
  match goal with
  | |- fails _ _ => eexists; split; [reflexivity | reflexivity]
  | |- aborts _ _ => eexists; eexists; split; [reflexivity | reflexivity]
  end.

(** Refutes a hypothesis [fails r k] or [aborts o k] once [r] or [o] has been
    computed to a value or to an abort of another kind. *)
Ltac not_failing H :=
  let msg := fresh "msg" in
  let this := fresh "this" in
  let E := fresh "E" in
  let K := fresh "K" in
  lazymatch type of H with
  | fails _ _ => destruct H as (msg & E & K)
  | aborts _ _ => destruct H as (msg & this & E & K)
  end;
  first [ discriminate E
        | inversion E; subst; vm_compute in K; discriminate K ].

(** Runs a sequence of statements, splitting on each [check] in turn. *)
Ltac run_checks :=
  cbn -[Asset.max_amount Int.int64_min];
  repeat match goal with
         | |- context [if ?c then _ else _] =>
             destruct c; cbn -[Asset.max_amount Int.int64_min]
         end;
  try reflexivity.

(** Closes the routine cases of a characterisation by outcome. *)
Ltac settle :=
  unfold not; intros;
  try tauto; try lia; try congruence;
  try failing;
  try match goal with
      | H : fails _ _ |- _ => not_failing H
      | H : aborts _ _ |- _ => not_failing H
      end.

(* ------------------------------------------------------------------ *)
(** ** The in-place operations, statement by statement *)

Module AssetFacts.
Import Int IntFacts Asset.

Lemma max_amount_eq : max_amount = 2 ^ 62 - 1.
Proof. reflexivity. Qed.

Lemma within_int64 (x : Z) : within x -> is_int64 x.
Proof.
  unfold within, is_int64, int64_min, int64_max. rewrite max_amount_eq. lia.
Qed.

Lemma is_amount_within_range_iff (this : asset) :
  is_amount_within_range this = true <-> within (amount this).
Proof.
  unfold is_amount_within_range, within.
  rewrite andb_true_iff, !Z.leb_le. reflexivity.
Qed.

Lemma is_valid_iff (this : asset) :
  is_valid this = true <->
  within (amount this) /\ Symbol.is_valid (symbol this) = true.
Proof.
  unfold is_valid. rewrite andb_true_iff, is_amount_within_range_iff.
  reflexivity.
Qed.

Lemma set_amount_run (a : Z) (this : asset) :
  set_amount a this =
    let r := mk a (symbol this) in
    if is_amount_within_range r then Returns tt r
    else Aborts "magnitude of asset amount must be less than 2^62" r.
Proof. reflexivity. Qed.

Lemma op_add_assign_run (a this : asset) :
  op_add_assign a this =
    if Symbol.eqb (symbol a) (symbol this) then
      let r := mk (add64 (amount this) (amount a)) (symbol this) in
      if - max_amount <=? amount r then
        if amount r <=? max_amount then Returns tt r
        else Aborts "addition overflow" r
      else Aborts "addition underflow" r
    else Aborts "attempt to add asset with different symbol" this.
Proof.
  unfold op_add_assign. run_checks.
Qed.

Lemma op_sub_assign_run (a this : asset) :
  op_sub_assign a this =
    if Symbol.eqb (symbol a) (symbol this) then
      let r := mk (sub64 (amount this) (amount a)) (symbol this) in
      if - max_amount <=? amount r then
        if amount r <=? max_amount then Returns tt r
        else Aborts "subtraction overflow" r
      else Aborts "subtraction underflow" r
    else Aborts "attempt to subtract asset with different symbol" this.
Proof.
  unfold op_sub_assign. run_checks.
Qed.

Lemma op_mul_assign_run (a : Z) (this : asset) :
  op_mul_assign a this =
    let tmp := mul128 (amount this) a in
    if tmp <=? max_amount then
      if tmp >=? - max_amount then Returns tt (mk (wrap64 tmp) (symbol this))
      else Aborts "multiplication underflow" this
    else Aborts "multiplication overflow" this.
Proof.
  unfold op_mul_assign. run_checks.
Qed.

Lemma op_div_assign_run (a : Z) (this : asset) :
  op_div_assign a this =
    if a =? 0 then Aborts "divide by zero" this
    else if (amount this =? int64_min) && (a =? -1)
         then Aborts "signed division overflow" this
         else Returns tt (mk (div64 (amount this) a) (symbol this)).
Proof.
  unfold op_div_assign. cbn -[int64_min].
  destruct (a =? 0); cbn -[int64_min]; [reflexivity|].
  destruct (amount this =? int64_min); cbn; [|reflexivity].
  destruct (a =? -1); reflexivity.
Qed.

(** Sums and differences of amounts within range fit 64 bits. *)
Lemma add64_exact (x y : Z) : within x -> within y -> add64 x y = x + y.
Proof.
  unfold within, add64. rewrite max_amount_eq. intros Hx Hy.
  apply wrap64_small. unfold is_int64, int64_min, int64_max. lia.
Qed.

Lemma sub64_exact (x y : Z) : within x -> within y -> sub64 x y = x - y.
Proof.
  unfold within, sub64. rewrite max_amount_eq. intros Hx Hy.
  apply wrap64_small. unfold is_int64, int64_min, int64_max. lia.
Qed.

Lemma neg64_exact (x : Z) : within x -> neg64 x = - x.
Proof.
  unfold within, neg64. rewrite max_amount_eq. intros Hx.
  apply wrap64_small. unfold is_int64, int64_min, int64_max. lia.
Qed.

(** The product of two 64-bit integers fits 128 bits. *)
Lemma mul128_exact (x y : Z) : is_int64 x -> is_int64 y -> mul128 x y = x * y.
Proof.
  unfold is_int64, int64_min, int64_max, mul128. intros Hx Hy.
  apply wrap128_small. nia.
Qed.

(** Truncating division never grows the magnitude, so it only leaves the
    64-bit range at [int64_min / -1]. *)
Lemma quot_abs_le (x y : Z) : y <> 0 -> Z.abs (Z.quot x y) <= Z.abs x.
Proof.
  intros Hy. rewrite <- Z.quot_abs by assumption.
  apply Z.quot_le_upper_bound; [lia |].
  assert (0 <= Z.abs x) by lia. nia.
Qed.

Lemma div64_exact (x y : Z) :
  is_int64 x -> y <> 0 -> ~ (x = int64_min /\ y = -1) ->
  div64 x y = Z.quot x y.
Proof.
  unfold div64. intros Hx Hy Hov. apply wrap64_small.
  pose proof (quot_abs_le x y Hy) as Hq.
  unfold is_int64, int64_min, int64_max in *.
  destruct (Z.eq_dec (Z.quot x y) (2 ^ 63)) as [E|E]; [|lia].
  exfalso. apply Hov.
  assert (x = - 2 ^ 63) as -> by lia. split; [reflexivity|].
  destruct (Z.eq_dec y (-1)) as [|Hy1]; [assumption|].
  destruct (Z.eq_dec y 1) as [->|Hy2].
  { rewrite Z.quot_1_r in E. lia. }
  assert (Z.abs (Z.quot (- 2 ^ 63) y) < 2 ^ 63); [|lia].
  rewrite <- Z.quot_abs by assumption.
  apply Z.quot_lt_upper_bound; lia.
Qed.

End AssetFacts.

(* ------------------------------------------------------------------ *)
(** ** Checked arithmetic *)

Module Arithmetic.
Import Int IntFacts Asset AssetFacts.

(** [a += b] on same-symbol operands within range: the sum is exact, and
    the call returns or aborts according to the range of the exact sum. *)
Lemma op_add_assign_within (a b : asset) :
  symbol a = symbol b -> within (amount a) -> within (amount b) ->
  let r := mk (amount a + amount b) (symbol a) in
  (within (amount a + amount b) /\ op_add_assign b a = Returns tt r)
  \/ (~ within (amount a + amount b)
      /\ exists msg, op_add_assign b a = Aborts msg r
                     /\ kind_of msg = Some RangeError).
Proof.
  intros Hs Ha Hb r. subst r.
  rewrite op_add_assign_run, <- Hs, SymbolFacts.eqb_refl. cbn zeta.
  rewrite (add64_exact _ _ Ha Hb). cbn [amount].
  unfold within.
  destruct (Z.leb_spec (- max_amount) (amount a + amount b));
    [destruct (Z.leb_spec (amount a + amount b) max_amount)|].
  - left. split; [lia | reflexivity].
  - right. split; [lia | eexists; split; reflexivity].
  - right. split; [lia | eexists; split; reflexivity].
Qed.

Lemma op_sub_assign_within (a b : asset) :
  symbol a = symbol b -> within (amount a) -> within (amount b) ->
  let r := mk (amount a - amount b) (symbol a) in
  (within (amount a - amount b) /\ op_sub_assign b a = Returns tt r)
  \/ (~ within (amount a - amount b)
      /\ exists msg, op_sub_assign b a = Aborts msg r
                     /\ kind_of msg = Some RangeError).
Proof.
  intros Hs Ha Hb r. subst r.
  rewrite op_sub_assign_run, <- Hs, SymbolFacts.eqb_refl. cbn zeta.
  rewrite (sub64_exact _ _ Ha Hb). cbn [amount].
  unfold within.
  destruct (Z.leb_spec (- max_amount) (amount a - amount b));
    [destruct (Z.leb_spec (amount a - amount b) max_amount)|].
  - left. split; [lia | reflexivity].
  - right. split; [lia | eexists; split; reflexivity].
  - right. split; [lia | eexists; split; reflexivity].
Qed.

(** [a *= s]: the 128-bit product is exact, and the call commits it only
    after both range checks. *)
Lemma op_mul_assign_int64 (a : asset) (s : Z) :
  is_int64 (amount a) -> is_int64 s ->
  (Z.abs (amount a * s) <= max_amount
   /\ op_mul_assign s a = Returns tt (mk (amount a * s) (symbol a)))
  \/ (Z.abs (amount a * s) > max_amount
      /\ exists msg, op_mul_assign s a = Aborts msg a
                     /\ kind_of msg = Some RangeError).
Proof.
  intros Ha Hs.
  rewrite op_mul_assign_run. cbn zeta.
  rewrite (mul128_exact _ _ Ha Hs).
  destruct (Z.leb_spec (amount a * s) max_amount);
    [destruct (Z.geb_spec (amount a * s) (- max_amount))|].
  - left. split; [lia|]. f_equal. f_equal.
    apply wrap64_small, within_int64. unfold within. lia.
  - right. split; [lia | eexists; split; reflexivity].
  - right. split; [lia | eexists; split; reflexivity].
Qed.

(** [a /= s]: the two checks in turn, then the truncating quotient. *)
Lemma op_div_assign_int64 (a : asset) (s : Z) :
  is_int64 (amount a) ->
  (s = 0 /\ op_div_assign s a = Aborts "divide by zero" a)
  \/ (s = -1 /\ amount a = int64_min
      /\ op_div_assign s a = Aborts "signed division overflow" a)
  \/ (s <> 0 /\ ~ (amount a = int64_min /\ s = -1)
      /\ op_div_assign s a =
           Returns tt (mk (Z.quot (amount a) s) (symbol a))).
Proof.
  intros Ha. rewrite op_div_assign_run.
  destruct (Z.eqb_spec s 0) as [|Hs]; [left; auto|].
  destruct (Z.eqb_spec (amount a) int64_min) as [Hm|Hm]; cbn [andb].
  - destruct (Z.eqb_spec s (-1)) as [|Hs1].
    + right; left. auto.
    + right; right. split; [assumption|]. split; [tauto|].
      rewrite div64_exact; tauto.
  - right; right. split; [assumption|]. split; [tauto|].
    rewrite div64_exact; tauto.
Qed.

End Arithmetic.

(* ------------------------------------------------------------------ *)
(** ** Preservation of the invariant, operation by operation *)

Module InvariantFacts.
Import Int IntFacts Asset AssetFacts Invariant.

Lemma valid_iff (a : asset) :
  valid a <-> within (amount a) /\ Symbol.is_valid (symbol a) = true.
Proof. apply is_valid_iff. Qed.

Lemma ctor_run (a : Z) (s : Symbol.symbol) :
  ctor a s =
    if is_amount_within_range (mk a s) then
      if Symbol.is_valid s then Ok (mk a s)
      else Error "invalid symbol name"
    else Error "magnitude of asset amount must be less than 2^62".
Proof.
  unfold ctor, on_copy, ctor_body. cbn.
  destruct (is_amount_within_range (mk a s)); cbn; [|reflexivity].
  destruct (Symbol.is_valid s); reflexivity.
Qed.

Lemma ctor_valid (a : Z) (s : Symbol.symbol) (r : asset) :
  ctor a s = Ok r -> valid r.
Proof.
  rewrite ctor_run. unfold valid, is_valid.
  destruct (is_amount_within_range (mk a s)) eqn:Er; [|discriminate].
  destruct (Symbol.is_valid s) eqn:Es; [|discriminate].
  intros [= <-]. cbn [symbol]. rewrite Er, Es. reflexivity.
Qed.

Lemma set_amount_valid (this : asset) (a : Z) (r : asset) :
  valid this -> set_amount a this = Returns tt r -> valid r.
Proof.
  intros Hv. apply valid_iff in Hv. destruct Hv as [_ Hs].
  rewrite set_amount_run. cbn zeta. unfold valid, is_valid.
  destruct (is_amount_within_range (mk a (symbol this))) eqn:Er;
    [|discriminate].
  intros [= <-]. cbn [symbol]. rewrite Er, Hs. reflexivity.
Qed.

(** The range is symmetric: negation needs no check. *)
Lemma op_neg_valid (this : asset) :
  valid this -> valid (op_neg this) /\ amount (op_neg this) = - amount this.
Proof.
  intros Hv. apply valid_iff in Hv. destruct Hv as [Hr Hs].
  unfold op_neg. cbn [amount]. rewrite (neg64_exact _ Hr).
  split; [|reflexivity].
  apply valid_iff. cbn [amount symbol]. split; [|assumption].
  unfold within in *. lia.
Qed.

Lemma op_add_assign_valid (this b r : asset) :
  valid this -> op_add_assign b this = Returns tt r -> valid r.
Proof.
  intros Hv. apply valid_iff in Hv. destruct Hv as [_ Hs].
  rewrite op_add_assign_run.
  destruct (Symbol.eqb (symbol b) (symbol this)); [|discriminate].
  cbn zeta. cbn [amount].
  destruct (Z.leb_spec (- max_amount) (add64 (amount this) (amount b)));
    [|discriminate].
  destruct (Z.leb_spec (add64 (amount this) (amount b)) max_amount);
    [|discriminate].
  intros [= <-]. apply valid_iff. cbn [amount symbol]. unfold within. auto.
Qed.

Lemma op_sub_assign_valid (this b r : asset) :
  valid this -> op_sub_assign b this = Returns tt r -> valid r.
Proof.
  intros Hv. apply valid_iff in Hv. destruct Hv as [_ Hs].
  rewrite op_sub_assign_run.
  destruct (Symbol.eqb (symbol b) (symbol this)); [|discriminate].
  cbn zeta. cbn [amount].
  destruct (Z.leb_spec (- max_amount) (sub64 (amount this) (amount b)));
    [|discriminate].
  destruct (Z.leb_spec (sub64 (amount this) (amount b)) max_amount);
    [|discriminate].
  intros [= <-]. apply valid_iff. cbn [amount symbol]. unfold within. auto.
Qed.

Lemma op_mul_assign_valid (this : asset) (s : Z) (r : asset) :
  valid this -> op_mul_assign s this = Returns tt r -> valid r.
Proof.
  intros Hv. apply valid_iff in Hv. destruct Hv as [_ Hs].
  rewrite op_mul_assign_run. cbn zeta.
  destruct (Z.leb_spec (mul128 (amount this) s) max_amount); [|discriminate].
  destruct (Z.geb_spec (mul128 (amount this) s) (- max_amount));
    [|discriminate].
  intros [= <-]. apply valid_iff. cbn [amount symbol].
  assert (Hw : within (mul128 (amount this) s)) by (unfold within; lia).
  rewrite (wrap64_small _ (within_int64 _ Hw)). auto.
Qed.

Lemma op_div_assign_valid (this : asset) (s : Z) (r : asset) :
  valid this -> op_div_assign s this = Returns tt r -> valid r.
Proof.
  intros Hv. apply valid_iff in Hv. destruct Hv as [Hr Hs].
  rewrite op_div_assign_run.
  destruct (Z.eqb_spec s 0) as [|Hs0]; [discriminate|].
  destruct ((amount this =? int64_min) && (s =? -1)); [discriminate|].
  intros [= <-]. apply valid_iff. cbn [amount symbol].
  split; [|assumption].
  assert (Hq : within (Z.quot (amount this) s)).
  { pose proof (quot_abs_le (amount this) s Hs0). unfold within in *. lia. }
  unfold div64. rewrite (wrap64_small _ (within_int64 _ Hq)). exact Hq.
Qed.

(** A by-value operator returns what its in-place twin leaves in the
    copy. *)
Lemma on_copy_Ok {A : Type} (a r : asset) (op : exec asset A) :
  on_copy a op = Ok r -> exists x, op a = Returns x r.
Proof.
  unfold on_copy. destruct (op a) as [x r'|]; [|discriminate].
  intros [= <-]. exists x. reflexivity.
Qed.

Lemma produces_valid (r : asset) : produces valid r -> valid r.
Proof.
  intros H. destruct H as
    [a s r E | this a r Hv E | this Hv | a b r Ha Hb E | a b r Ha Hb E
    | a s r Ha E | s a r Ha E | a s r Ha E
    | this b r Hv Hb E | this b r Hv Hb E | this s r Hv E | this s r Hv E].
  - exact (ctor_valid _ _ _ E).
  - exact (set_amount_valid _ _ _ Hv E).
  - apply op_neg_valid; assumption.
  - apply on_copy_Ok in E. destruct E as [[] E].
    exact (op_add_assign_valid _ _ _ Ha E).
  - apply on_copy_Ok in E. destruct E as [[] E].
    exact (op_sub_assign_valid _ _ _ Ha E).
  - apply on_copy_Ok in E. destruct E as [[] E].
    exact (op_mul_assign_valid _ _ _ Ha E).
  - apply on_copy_Ok in E. destruct E as [[] E].
    exact (op_mul_assign_valid _ _ _ Ha E).
  - apply on_copy_Ok in E. destruct E as [[] E].
    exact (op_div_assign_valid _ _ _ Ha E).
  - exact (op_add_assign_valid _ _ _ Hv E).
  - exact (op_sub_assign_valid _ _ _ Hv E).
  - exact (op_mul_assign_valid _ _ _ Hv E).
  - exact (op_div_assign_valid _ _ _ Hv E).
Qed.

Lemma produces_mono (P Q : asset -> Prop) (r : asset) :
  (forall a, P a -> Q a) -> produces P r -> produces Q r.
Proof.
  intros HPQ H. destruct H as
    [a s r E | this a r Hv E | this Hv | a b r Ha Hb E | a b r Ha Hb E
    | a s r Ha E | s a r Ha E | a s r Ha E
    | this b r Hv Hb E | this b r Hv Hb E | this s r Hv E | this s r Hv E].
  - exact (by_ctor Q a s r E).
  - exact (by_set_amount Q this a r (HPQ _ Hv) E).
  - exact (by_neg Q this (HPQ _ Hv)).
  - exact (by_add Q a b r (HPQ _ Ha) (HPQ _ Hb) E).
  - exact (by_sub Q a b r (HPQ _ Ha) (HPQ _ Hb) E).
  - exact (by_mul Q a s r (HPQ _ Ha) E).
  - exact (by_mul_left Q s a r (HPQ _ Ha) E).
  - exact (by_div Q a s r (HPQ _ Ha) E).
  - exact (by_add_assign Q this b r (HPQ _ Hv) (HPQ _ Hb) E).
  - exact (by_sub_assign Q this b r (HPQ _ Hv) (HPQ _ Hb) E).
  - exact (by_mul_assign Q this s r (HPQ _ Hv) E).
  - exact (by_div_assign Q this s r (HPQ _ Hv) E).
Qed.

Lemma produced_in_valid (n : nat) : forall r, produced_in n r -> valid r.
Proof.
  induction n as [|n IH]; intros r H; cbn in H; [contradiction|].
  apply produces_valid. eapply produces_mono; eassumption.
Qed.

End InvariantFacts.

(* ------------------------------------------------------------------ *)
(** ** The operators of [extended_asset], statement by statement *)

Module ExtendedFacts.
Import Int Asset ExtendedAsset.

Lemma name_eqb_eq (a b : name) : name_eqb a b = true <-> a = b.
Proof. apply Z.eqb_eq. Qed.

Lemma name_eqb_neq (a b : name) : name_eqb a b = false <-> a <> b.
Proof. apply Z.eqb_neq. Qed.

Lemma ext_add_assign_run (b a : extended_asset) :
  ExtendedAsset.op_add_assign b a =
    if name_eqb (contract a) (contract b)
    then on_quantity (Asset.op_add_assign (quantity b)) a
    else Aborts "type mismatch" a.
Proof.
  unfold ExtendedAsset.op_add_assign. cbn.
  destruct (name_eqb (contract a) (contract b)); reflexivity.
Qed.

Lemma ext_sub_assign_run (b a : extended_asset) :
  ExtendedAsset.op_sub_assign b a =
    if name_eqb (contract a) (contract b)
    then on_quantity (Asset.op_sub_assign (quantity b)) a
    else Aborts "type mismatch" a.
Proof.
  unfold ExtendedAsset.op_sub_assign. cbn.
  destruct (name_eqb (contract a) (contract b)); reflexivity.
Qed.

(** A call on the quantity aborts exactly when the call aborts on the
    asset, and leaves the contract alone. *)
Lemma on_quantity_Aborts {A : Type} (op : exec asset A)
      (a r : extended_asset) (msg : string) :
  on_quantity op a = Aborts msg r ->
  op (quantity a) = Aborts msg (quantity r) /\ contract r = contract a.
Proof.
  unfold on_quantity. destruct (op (quantity a)); [discriminate|].
  intros [= <- <-]. split; reflexivity.
Qed.

Lemma eta (r : extended_asset) : r = ExtendedAsset.mk (quantity r) (contract r).
Proof. destruct r; reflexivity. Qed.

End ExtendedFacts.

(* ------------------------------------------------------------------ *)
(** ** Decoding after encoding *)

Module SerializeFacts.
Import Int IntFacts Serialize.

Lemma read_write_word (w : Z) (rest : list byte) :
  read_word (write_word w ++ rest) = Some (w mod 2 ^ 64, rest).
Proof.
  unfold read_word, write_word.
  rewrite length_app, length_le_split. cbn [Nat.add Nat.leb].
  rewrite List.firstn_app_l by (rewrite length_le_split; reflexivity).
  rewrite skipn_app, length_le_split, Nat.sub_diag.
  rewrite (List.skipn_all2 (n := 8%nat))
    by (rewrite length_le_split; reflexivity).
  rewrite le_combine_split. reflexivity.
Qed.

Lemma length_write_word (w : Z) : List.length (write_word w) = 8%nat.
Proof. apply length_le_split. Qed.

(** Reading an [int64_t] back from its two's complement bytes. *)
Lemma wrap64_mod (x : Z) : is_int64 x -> wrap64 (x mod 2 ^ 64) = x.
Proof.
  unfold is_int64, int64_min, int64_max, wrap64, wrap. intros H.
  change (64 - 1) with 63.
  rewrite Zplus_mod_idemp_l, Z.mod_small; lia.
Qed.

Lemma decode_encode_int64 (x : Z) (rest : list byte) :
  is_int64 x -> decode_int64 (encode_int64 x ++ rest) = Some (x, rest).
Proof.
  intros H. unfold decode_int64, encode_int64.
  rewrite read_write_word, wrap64_mod by assumption. reflexivity.
Qed.

Lemma decode_encode_name (n : name) (rest : list byte) :
  is_uint64 n -> decode_name (encode_name n ++ rest) = Some (n, rest).
Proof.
  unfold is_uint64, decode_name, encode_name. intros H.
  rewrite read_write_word, Z.mod_small by assumption. reflexivity.
Qed.

(** A byte below a shifted word: no bit is shared, the two add up. *)
Lemma lor_byte (p c : Z) :
  0 <= p < 256 -> 0 <= c -> Z.lor p (Z.shiftl c 8) = p + 256 * c.
Proof.
  intros Hp Hc. rewrite Z.shiftl_mul_pow2 by lia.
  assert (Hdisj : Z.land p (c * 2 ^ 8) = 0).
  { apply Z.bits_inj'. intros n Hn. rewrite Z.land_spec, Z.bits_0.
    destruct (Z.ltb_spec n 8).
    - rewrite Z.mul_pow2_bits_low by lia. apply andb_false_r.
    - replace p with (p mod 2 ^ 8) by (apply Z.mod_small; lia).
      rewrite Z.mod_pow2_bits_high by lia. reflexivity. }
  pose proof (Z.add_lor_land p (c * 2 ^ 8)) as Hadd.
  rewrite Hdisj in Hadd. lia.
Qed.

Lemma low_byte (p c : Z) : 0 <= p < 256 -> Z.land (p + 256 * c) 255 = p.
Proof.
  intros Hp. change 255 with (Z.ones 8). rewrite Z.land_ones by lia.
  change (2 ^ 8) with 256.
  symmetry. apply (Z.mod_unique_pos _ _ c); lia.
Qed.

Lemma high_bytes (p c : Z) : 0 <= p < 256 -> Z.shiftr (p + 256 * c) 8 = c.
Proof.
  intros Hp. rewrite Z.shiftr_div_pow2 by lia. change (2 ^ 8) with 256.
  symmetry. apply (Z.div_unique_pos _ _ _ p); lia.
Qed.

Lemma char_bounded (c : ascii) : 0 <= Z.of_N (N_of_ascii c) < 256.
Proof. pose proof (N_ascii_bounded c). lia. Qed.

Lemma code_raw_bound (s : string) :
  0 <= code_raw s < 2 ^ (8 * Z.of_nat (String.length s)).
Proof.
  induction s as [|c s IH]; cbn [code_raw String.length].
  - cbn. lia.
  - rewrite lor_byte by (apply char_bounded || lia).
    pose proof (char_bounded c).
    rewrite Nat2Z.inj_succ.
    replace (8 * Z.succ (Z.of_nat (String.length s)))
      with (8 + 8 * Z.of_nat (String.length s)) by lia.
    rewrite Z.pow_add_r by lia. change (2 ^ 8) with 256. lia.
Qed.

Lemma code_of_raw_code_raw (s : string) :
  Symbol.all_upper s = true ->
  forall slots, (String.length s <= slots)%nat ->
  code_of_raw slots (code_raw s) = s.
Proof.
  induction s as [|c s IH]; intros Hup slots Hlen.
  - destruct slots; reflexivity.
  - cbn [Symbol.all_upper] in Hup. apply andb_true_iff in Hup.
    destruct Hup as [Hc Hs].
    destruct slots as [|slots]; [cbn in Hlen; lia|].
    cbn [String.length] in Hlen.
    cbn [code_raw code_of_raw].
    pose proof (char_bounded c) as Hb.
    pose proof (code_raw_bound s) as [Hr _].
    rewrite lor_byte by assumption.
    rewrite low_byte, high_bytes by assumption.
    unfold Symbol.is_upper in Hc. cbn zeta in Hc.
    apply andb_true_iff in Hc. destruct Hc as [Hlo _].
    apply Z.leb_le in Hlo.
    destruct (Z.eqb_spec (Z.of_N (N_of_ascii c)) 0) as [E|_]; [lia|].
    rewrite N2Z.id, ascii_N_embedding, IH by (assumption || lia).
    reflexivity.
Qed.

Lemma symbol_of_raw_symbol_raw (s : Symbol.symbol) :
  Symbol.is_valid s = true ->
  is_uint64 (symbol_raw s) /\ symbol_of_raw (symbol_raw s) = s.
Proof.
  destruct s as [p c]. unfold Symbol.is_valid. cbn [Symbol.precision Symbol.code].
  rewrite !andb_true_iff, !Z.leb_le, Z.ltb_lt.
  intros [[[[Hne Hlen] Hup] Hp0] Hp18].
  unfold symbol_raw, symbol_of_raw. cbn [Symbol.precision Symbol.code].
  pose proof (code_raw_bound c) as [Hr0 Hr].
  assert (Hr56 : code_raw c < 2 ^ 56).
  { eapply Z.lt_le_trans; [exact Hr|].
    apply Z.pow_le_mono_r; lia. }
  rewrite lor_byte by lia. split.
  - unfold is_uint64. lia.
  - rewrite low_byte, high_bytes by lia.
    rewrite code_of_raw_code_raw by (assumption || lia). reflexivity.
Qed.

Lemma decode_encode_symbol (s : Symbol.symbol) (rest : list byte) :
  Symbol.is_valid s = true ->
  decode_symbol (encode_symbol s ++ rest) = Some (s, rest).
Proof.
  intros Hv. destruct (symbol_of_raw_symbol_raw s Hv) as [Hu Hs].
  unfold decode_symbol, encode_symbol.
  rewrite read_write_word, Z.mod_small, Hs by exact Hu. reflexivity.
Qed.

Lemma decode_encode_asset (a : Asset.asset) (rest : list byte) :
  Asset.is_valid a = true ->
  decode_asset (encode_asset a ++ rest) = Some (a, rest).
Proof.
  intros Hv. apply AssetFacts.is_valid_iff in Hv. destruct Hv as [Hr Hs].
  unfold decode_asset, encode_asset. rewrite <- app_assoc.
  rewrite decode_encode_int64 by (apply AssetFacts.within_int64; exact Hr).
  rewrite decode_encode_symbol by exact Hs.
  destruct a; reflexivity.
Qed.

End SerializeFacts.

(* ------------------------------------------------------------------ *)
(** ** Rendering *)

Module RenderFacts.
Import Int IntFacts Asset AssetFacts.

(** The loop computes the power of ten as long as it fits 64 bits. *)
Lemma pow10_loop_exact (p : nat) :
  forall p10, 0 <= p10 -> p10 * 10 ^ Z.of_nat p <= int64_max ->
  pow10_loop p p10 = p10 * 10 ^ Z.of_nat p.
Proof.
  induction p as [|p IH]; intros p10 H0 Hmax.
  - cbn. lia.
  - rewrite Nat2Z.inj_succ, Z.pow_succ_r in * by lia.
    cbn [pow10_loop]. unfold mul64.
    assert (0 < 10 ^ Z.of_nat p) by (apply Z.pow_pos_nonneg; lia).
    rewrite wrap64_small
      by (unfold is_int64, int64_min, int64_max in *; nia).
    rewrite IH by nia. lia.
Qed.

Lemma pow10_of_valid (s : Symbol.symbol) :
  Symbol.is_valid s = true ->
  0 <= Symbol.precision s <= 18
  /\ pow10_loop (Z.to_nat (Symbol.precision s)) 1 = 10 ^ Symbol.precision s
  /\ 1 <= 10 ^ Symbol.precision s <= 10 ^ 18.
Proof.
  unfold Symbol.is_valid. rewrite !andb_true_iff, !Z.leb_le.
  intros [[_ Hp0] Hp18]. split; [lia|].
  assert (Hle : 10 ^ Symbol.precision s <= 10 ^ 18)
    by (apply Z.pow_le_mono_r; lia).
  assert (Hpos : 0 < 10 ^ Symbol.precision s)
    by (apply Z.pow_pos_nonneg; lia).
  split; [|lia].
  rewrite pow10_loop_exact; rewrite ?Z2Nat.id by lia;
    unfold int64_max; lia.
Qed.

(** [%lld] writes a minus sign in front of a negative number. *)
Lemma lld_negative (x : Z) :
  x < 0 -> exists digits, lld x = String "-" digits.
Proof.
  destruct x as [|q|q]; try lia. intros _.
  unfold lld. cbn. eexists. reflexivity.
Qed.

(** Once the integer part is negative the rendering starts with two minus
    signs: one from the format, one from [%lld]. *)
Lemma to_string_two_signs (this : asset) :
  Symbol.is_valid (symbol this) = true -> is_int64 (amount this) ->
  amount this <= - 10 ^ Symbol.precision (symbol this) ->
  exists rest, to_string this = String "-" (String "-" rest).
Proof.
  intros Hv Ha Hle.
  destruct (pow10_of_valid _ Hv) as (Hp & Hp10 & Hb).
  unfold to_string. cbn zeta. rewrite Hp10.
  set (p10 := 10 ^ Symbol.precision (symbol this)) in *.
  assert (Hneg : (amount this <? 0) = true) by (apply Z.ltb_lt; lia).
  rewrite Hneg.
  rewrite div64_exact by (assumption || lia).
  assert (Hq : Z.quot (amount this) p10 < 0).
  { assert (Z.quot (amount this) p10 <= Z.quot (- p10) p10)
      by (apply Z.quot_le_mono; lia).
    rewrite Z.quot_opp_l, Z.quot_same in H by lia. lia. }
  destruct (lld_negative _ Hq) as [digits ->].
  unfold snprintf.
  replace (Z.to_nat (Symbol.precision (symbol this) + 32 - 1))
    with (S (S (Z.to_nat (Symbol.precision (symbol this)) + 29)))
    by lia.
  cbn [append substring]. eexists. reflexivity.
Qed.

End RenderFacts.

(* ------------------------------------------------------------------ *)
(** ** The operations on sample values *)

Module Examples.
Import Asset.

Example ctor_max_amount : ctor max_amount SYS2 = Ok (mk max_amount SYS2).
Proof. reflexivity. Qed.

Example ctor_above_max_amount : fails (ctor (max_amount + 1) SYS2) RangeError.
Proof. failing. Qed.

Example ctor_lower_case : fails (ctor 1 (Symbol.mk 2 "sys")) InvalidSymbolError.
Proof. failing. Qed.

Example add_different_symbols :
  fails (op_add (mk 1 SYS2) (mk 1 TOK4)) SymbolMismatchError.
Proof. failing. Qed.

Example div_by_zero : fails (op_div (mk 10 SYS2) 0) DivideByZeroError.
Proof. failing. Qed.

Example mul_by_zero_and_one :
  op_mul (mk 7 SYS2) 0 = Ok (mk 0 SYS2) /\ op_mul (mk 7 SYS2) 1 = Ok (mk 7 SYS2).
Proof. split; reflexivity. Qed.

Example div_truncates : op_div (mk (-7) SYS2) 2 = Ok (mk (-3) SYS2).
Proof. reflexivity. Qed.

Example ne_different_symbols :
  fails (op_ne (mk 1 SYS2) (mk 2 TOK4)) SymbolMismatchError.
Proof. failing. Qed.

Example extended_add_different_contracts :
  fails (ExtendedAsset.op_add (ExtendedAsset.mk (mk 1 SYS2) 1)
                              (ExtendedAsset.mk (mk 1 SYS2) 2))
        OwnershipMismatchError.
Proof. failing. Qed.

Example extended_add_assign :
  ExtendedAsset.op_add_assign (ExtendedAsset.mk (mk 2 SYS2) 1)
                              (ExtendedAsset.mk (mk 1 SYS2) 1)
  = Returns tt (ExtendedAsset.mk (mk 3 SYS2) 1).
Proof. reflexivity. Qed.

Example encode_sample :
  Serialize.encode_asset (mk (-5) SYS2) =
    [Byte.xfb; Byte.xff; Byte.xff; Byte.xff; Byte.xff; Byte.xff; Byte.xff;
     Byte.xff; Byte.x02; Byte.x53; Byte.x59; Byte.x53; Byte.x00; Byte.x00;
     Byte.x00; Byte.x00].
Proof. reflexivity. Qed.

End Examples.

Section Claims.
  Import Int IntFacts Asset AssetFacts Arithmetic Invariant InvariantFacts.
  Import ExtendedFacts Serialize SerializeFacts.

(** C1.  For two assets of the same symbol whose amounts are both within
    [-max_amount, max_amount], the native 64-bit sum (difference) does not
    wrap; [a + b] ([a - b]) fails with a RangeError exactly when the
    mathematical sum (difference) is outside [-max_amount, max_amount], and
    otherwise returns the asset of that exact amount and of the operands'
    symbol.  The same holds for the in-place [+=] and [-=]. *)
Theorem add_sub_exact (a b : asset) :
  symbol a = symbol b -> within (amount a) -> within (amount b) ->
  (add64 (amount a) (amount b) = amount a + amount b
   /\ (fails (op_add a b) RangeError <-> ~ within (amount a + amount b))
   /\ (within (amount a + amount b) ->
       op_add a b = Ok (mk (amount a + amount b) (symbol a)))
   /\ (aborts (op_add_assign b a) RangeError
       <-> ~ within (amount a + amount b))
   /\ (within (amount a + amount b) ->
       op_add_assign b a = Returns tt (mk (amount a + amount b) (symbol a))))
  /\
  (sub64 (amount a) (amount b) = amount a - amount b
   /\ (fails (op_sub a b) RangeError <-> ~ within (amount a - amount b))
   /\ (within (amount a - amount b) ->
       op_sub a b = Ok (mk (amount a - amount b) (symbol a)))
   /\ (aborts (op_sub_assign b a) RangeError
       <-> ~ within (amount a - amount b))
   /\ (within (amount a - amount b) ->
       op_sub_assign b a = Returns tt (mk (amount a - amount b) (symbol a)))).
Proof.
  intros Hs Ha Hb. split.
  - split; [apply add64_exact; assumption|].
    unfold op_add, on_copy.
    destruct (op_add_assign_within a b Hs Ha Hb) as [[Hin E]|[Hout (msg & E & K)]];
      rewrite E.
    + repeat split; intros; try tauto.
      * not_failing H.
      * not_failing H.
    + repeat split; intros; try tauto.
      * exists msg. auto.
      * exists msg. eexists. eauto.
  - split; [apply sub64_exact; assumption|].
    unfold op_sub, on_copy.
    destruct (op_sub_assign_within a b Hs Ha Hb) as [[Hin E]|[Hout (msg & E & K)]];
      rewrite E.
    + repeat split; intros; try tauto.
      * not_failing H.
      * not_failing H.
    + repeat split; intros; try tauto.
      * exists msg. auto.
      * exists msg. eexists. eauto.
Qed.

(** Discharges a range side condition at a literal. *)
Ltac literal_range :=
  unfold within, is_int64, int64_min, int64_max;
  try rewrite max_amount_eq; cbn [amount]; lia.

Lemma add_sub_exact_witness :
  within 3 /\ within 4 /\
  op_add (mk 3 SYS2) (mk 4 SYS2) = Ok (mk 7 SYS2) /\
  op_sub (mk 3 SYS2) (mk 4 SYS2) = Ok (mk (-1) SYS2) /\
  fails (op_add (mk max_amount SYS2) (mk 1 SYS2)) RangeError.
Proof.
  assert (H3 : within 3) by literal_range.
  assert (H4 : within 4) by literal_range.
  assert (H1 : within 1) by literal_range.
  assert (Hm : within max_amount) by literal_range.
  split; [exact H3|]. split; [exact H4|].
  destruct (add_sub_exact (mk 3 SYS2) (mk 4 SYS2) eq_refl H3 H4)
    as [(_ & _ & Hadd & _) (_ & _ & Hsub & _)].
  destruct (add_sub_exact (mk max_amount SYS2) (mk 1 SYS2) eq_refl Hm H1)
    as [(_ & Hfail & _) _].
  split; [apply Hadd; literal_range|].
  split; [apply Hsub; literal_range|].
  apply Hfail. literal_range.
Defined.

(** C5.  For an asset whose amount is within [-max_amount, max_amount] and a
    64-bit factor [s], the 128-bit product is the exact product; [a * s]
    fails with a RangeError exactly when the magnitude of the exact product
    exceeds [max_amount], and otherwise returns the asset of that exact
    amount (narrowing to 64 bits loses nothing).  Both operand orders and
    the in-place [*=] agree, and [asset(max_amount, sym) * 2] fails with a
    RangeError. *)
Theorem scale_exact (a : asset) (s : Z) :
  within (amount a) -> is_int64 s ->
  mul128 (amount a) s = amount a * s
  /\ (fails (op_mul a s) RangeError <-> Z.abs (amount a * s) > max_amount)
  /\ (Z.abs (amount a * s) <= max_amount ->
      wrap64 (amount a * s) = amount a * s
      /\ op_mul a s = Ok (mk (amount a * s) (symbol a))
      /\ op_mul_assign s a = Returns tt (mk (amount a * s) (symbol a)))
  /\ (aborts (op_mul_assign s a) RangeError
      <-> Z.abs (amount a * s) > max_amount)
  /\ op_mul_left s a = op_mul a s
  /\ fails (op_mul (mk max_amount (symbol a)) 2) RangeError.
Proof.
  intros Ha Hs. pose proof (within_int64 _ Ha) as Ha'.
  split; [apply mul128_exact; assumption|].
  assert (Htop : fails (op_mul (mk max_amount (symbol a)) 2) RangeError).
  { unfold op_mul, on_copy. rewrite op_mul_assign_run. failing. }
  unfold op_mul_left, op_mul, on_copy.
  destruct (op_mul_assign_int64 a s Ha' Hs) as [[Hin E]|[Hout (msg & E & K)]];
    rewrite E.
  - repeat split; intros; try tauto; try lia.
    + not_failing H.
    + apply wrap64_small, within_int64. unfold within. lia.
    + not_failing H.
  - repeat split; intros; try tauto; try lia.
    + exists msg. auto.
    + exists msg. eexists. eauto.
Qed.

Lemma scale_exact_witness :
  within 21 /\ is_int64 (-2) /\
  op_mul (mk 21 SYS2) (-2) = Ok (mk (-42) SYS2) /\
  fails (op_mul (mk max_amount SYS2) 2) RangeError.
Proof.
  assert (H21 : within 21) by literal_range.
  assert (H2 : is_int64 (-2)) by literal_range.
  split; [exact H21|]. split; [exact H2|].
  destruct (scale_exact (mk 21 SYS2) (-2) H21 H2)
    as (_ & _ & Hmul & _ & _ & Htop).
  split; [|exact Htop].
  apply Hmul. cbn [amount]. rewrite max_amount_eq. lia.
Defined.

(** C6.  Dividing an asset by a 64-bit integer [s] fails with a
    DivideByZeroError exactly when [s = 0], fails with an OverflowError
    exactly when the amount is the most negative 64-bit value and [s = -1],
    and otherwise returns the asset whose amount is the quotient truncated
    toward zero; the zero check comes first.  The in-place [/=] behaves the
    same and leaves its receiver untouched when it aborts. *)
Theorem div_int_exact (a : asset) (s : Z) :
  is_int64 (amount a) -> is_int64 s ->
  (fails (op_div a s) DivideByZeroError <-> s = 0)
  /\ (fails (op_div a s) OverflowError
      <-> amount a = int64_min /\ s = -1)
  /\ (s <> 0 -> ~ (amount a = int64_min /\ s = -1) ->
      op_div a s = Ok (mk (Z.quot (amount a) s) (symbol a))
      /\ op_div_assign s a =
           Returns tt (mk (Z.quot (amount a) s) (symbol a)))
  /\ (s = 0 -> op_div_assign s a = Aborts "divide by zero" a)
  /\ (amount a = int64_min -> s = -1 ->
      op_div_assign s a = Aborts "signed division overflow" a).
Proof.
  intros Ha Hs. unfold op_div, on_copy.
  destruct (op_div_assign_int64 a s Ha)
    as [[H0 E]|[(H1 & Hm & E)|(H0 & Hov & E)]]; rewrite E;
    repeat split; intros; settle.
Qed.

Lemma div_int_exact_witness :
  is_int64 (-7) /\ is_int64 2 /\
  op_div (mk (-7) SYS2) 2 = Ok (mk (-3) SYS2) /\
  fails (op_div (mk 10 SYS2) 0) DivideByZeroError /\
  fails (op_div (mk int64_min SYS2) (-1)) OverflowError.
Proof.
  assert (H7 : is_int64 (-7)) by literal_range.
  assert (H2 : is_int64 2) by literal_range.
  assert (H10 : is_int64 10) by literal_range.
  assert (H0 : is_int64 0) by literal_range.
  assert (Hm : is_int64 int64_min) by literal_range.
  assert (H1 : is_int64 (-1)) by literal_range.
  split; [exact H7|]. split; [exact H2|].
  destruct (div_int_exact (mk (-7) SYS2) 2 H7 H2) as (_ & _ & Hq & _).
  destruct (div_int_exact (mk 10 SYS2) 0 H10 H0) as (Hz & _).
  destruct (div_int_exact (mk int64_min SYS2) (-1) Hm H1) as (_ & Hov & _).
  split; [apply Hq; cbn [amount]; unfold int64_min; lia|].
  split; [apply Hz; reflexivity|].
  apply Hov. split; reflexivity.
Defined.

(** The order of the two checks of [a / b] on assets: a zero divisor is
    reported even when the symbols differ. *)
Lemma div_asset_zero_checked_first :
  symbol (mk 1 SYS2) <> symbol (mk 0 TOK4)
  /\ op_div_asset (mk 1 SYS2) (mk 0 TOK4) = Error "divide by zero"
  /\ fails (op_div_asset (mk 1 SYS2) (mk 0 TOK4)) DivideByZeroError
  /\ ~ fails (op_div_asset (mk 1 SYS2) (mk 0 TOK4)) SymbolMismatchError.
Proof.
  split; [discriminate|]. split; [reflexivity|].
  split; [failing|]. intros H. not_failing H.
Qed.

(** C4, as the code has it.  In [a / b] on assets the divide-by-zero check
    comes before the symbol check: the division fails with a
    DivideByZeroError exactly when the divisor's amount is 0, whatever the
    symbols; it fails with a SymbolMismatchError exactly when the divisor's
    amount is not 0 and the symbols differ; and for a non-zero divisor of
    the same symbol the result is the quotient of the two amounts truncated
    toward zero (the one quotient that does not fit 64 bits,
    [int64_min / -1], apart). *)
Theorem div_asset_checks (a b : asset) :
  is_int64 (amount a) -> is_int64 (amount b) ->
  (fails (op_div_asset a b) DivideByZeroError <-> amount b = 0)
  /\ (fails (op_div_asset a b) SymbolMismatchError
      <-> amount b <> 0 /\ symbol a <> symbol b)
  /\ (amount b <> 0 -> symbol a = symbol b ->
      ~ (amount a = int64_min /\ amount b = -1) ->
      op_div_asset a b = Ok (Z.quot (amount a) (amount b))).
Proof.
  intros Ha Hb. unfold op_div_asset. cbn.
  destruct (Z.eqb_spec (amount b) 0) as [H0|H0]; cbn.
  - repeat split; intros; settle.
  - destruct (Symbol.eqb (symbol a) (symbol b)) eqn:Es; cbn.
    + apply SymbolFacts.eqb_eq in Es.
      repeat split; intros; settle.
      rewrite div64_exact; tauto.
    + apply SymbolFacts.eqb_neq in Es.
      repeat split; intros; settle.
Qed.

Lemma div_asset_checks_witness :
  is_int64 (-7) /\ is_int64 2 /\
  op_div_asset (mk (-7) SYS2) (mk 2 SYS2) = Ok (-3) /\
  fails (op_div_asset (mk (-7) SYS2) (mk 2 TOK4)) SymbolMismatchError.
Proof.
  assert (H7 : is_int64 (-7)) by literal_range.
  assert (H2 : is_int64 2) by literal_range.
  split; [exact H7|]. split; [exact H2|].
  destruct (div_asset_checks (mk (-7) SYS2) (mk 2 SYS2) H7 H2)
    as (_ & _ & Hq).
  destruct (div_asset_checks (mk (-7) SYS2) (mk 2 TOK4) H7 H2)
    as (_ & Hs & _).
  split.
  - apply Hq; cbn [amount symbol]; [lia | reflexivity | lia].
  - apply Hs. cbn [amount symbol]. split; [lia | discriminate].
Defined.

(** C8.  Every asset that comes out of a successful operation
    (construction, [set_amount], negation, addition, subtraction, scaling,
    division by an integer) applied to assets satisfying the invariant
    satisfies the invariant: its amount is within [-max_amount, max_amount]
    and its symbol is valid.  Hence so does every asset built by nesting
    such operations from constructions.  Negation needs no check: on an
    asset satisfying the invariant it yields exactly the negated amount,
    which is within range because the range is symmetric. *)
Theorem invariant_holds (r : asset) :
  (produces valid r -> valid r)
  /\ (produced r -> within (amount r) /\ Symbol.is_valid (symbol r) = true)
  /\ (valid r ->
      valid (op_neg r) /\ amount (op_neg r) = - amount r
      /\ symbol (op_neg r) = symbol r).
Proof.
  split; [apply produces_valid|]. split.
  - intros [n Hn]. apply valid_iff. eapply produced_in_valid; eassumption.
  - intros Hv. destruct (op_neg_valid r Hv) as [H1 H2]. auto.
Qed.

Lemma invariant_holds_witness :
  produced (mk (-42) SYS2) /\ valid (mk (-42) SYS2).
Proof.
  assert (Hp : produced (mk (-42) SYS2)).
  { exists 2%nat. cbn.
    apply by_mul with (a := mk 21 SYS2) (s := -2); [|reflexivity].
    apply by_ctor with (a := 21) (s := SYS2). reflexivity. }
  split; [exact Hp|].
  apply valid_iff.
  destruct (invariant_holds (mk (-42) SYS2)) as (_ & H & _).
  apply H. exact Hp.
Defined.

(** [set_amount] against the constructor: the symbol is not looked at, and
    the new amount is stored before it is checked. *)
Lemma set_amount_differs_from_ctor :
  Symbol.is_valid (symbol default) = false
  /\ fails (ctor 5 (symbol default)) InvalidSymbolError
  /\ set_amount 5 default = Returns tt (mk 5 (symbol default))
  /\ amount (mk 7 SYS2) <> max_amount + 1
  /\ set_amount (max_amount + 1) (mk 7 SYS2) =
       Aborts "magnitude of asset amount must be less than 2^62"
              (mk (max_amount + 1) SYS2).
Proof.
  split; [reflexivity|]. split; [failing|]. split; [reflexivity|].
  split; [discriminate | reflexivity].
Qed.

(** C2, as the code has it.  [set_amount(a)] performs the range check of
    construction and no other: it aborts with a RangeError exactly when
    [|a| > max_amount] and never with an InvalidSymbolError, whatever the
    symbol of the receiver; the constructor, for comparison, also rejects
    an invalid symbol.  When the check passes the amount is [a] and the
    symbol is unchanged.  The amount is stored before the check, so the
    receiver holds [a] also when the call aborts. *)
Theorem set_amount_checks (a : Z) (this : asset) :
  (aborts (set_amount a this) RangeError <-> Z.abs a > max_amount)
  /\ ~ aborts (set_amount a this) InvalidSymbolError
  /\ (Z.abs a <= max_amount ->
      set_amount a this = Returns tt (mk a (symbol this)))
  /\ receiver (set_amount a this) = mk a (symbol this)
  /\ (fails (ctor a (symbol this)) RangeError <-> Z.abs a > max_amount)
  /\ (fails (ctor a (symbol this)) InvalidSymbolError
      <-> Z.abs a <= max_amount /\ Symbol.is_valid (symbol this) = false).
Proof.
  rewrite set_amount_run, ctor_run. cbn zeta.
  destruct (is_amount_within_range (mk a (symbol this))) eqn:Er.
  - apply is_amount_within_range_iff in Er. unfold within in Er.
    cbn [amount] in Er.
    destruct (Symbol.is_valid (symbol this)) eqn:Es;
      repeat split; intros; settle.
  - assert (Hout : ~ within a).
    { intros Hw. change a with (amount (mk a (symbol this))) in Hw.
      apply is_amount_within_range_iff in Hw. congruence. }
    unfold within in Hout.
    repeat split; intros; settle.
Qed.

Lemma set_amount_checks_witness :
  set_amount 5 default = Returns tt (mk 5 Symbol.default)
  /\ aborts (set_amount (max_amount + 1) (mk 7 SYS2)) RangeError.
Proof.
  destruct (set_amount_checks 5 default) as (_ & _ & Hok & _).
  destruct (set_amount_checks (max_amount + 1) (mk 7 SYS2)) as (Hab & _).
  split.
  - apply Hok. rewrite max_amount_eq. lia.
  - apply Hab. rewrite max_amount_eq. lia.
Defined.

(** [==] and [!=] on extended assets of different contracts. *)
Lemma extended_eq_is_not_gated :
  ExtendedAsset.contract (ExtendedAsset.mk (mk 1 TOK4) 1)
    <> ExtendedAsset.contract (ExtendedAsset.mk (mk 1 TOK4) 2)
  /\ ExtendedAsset.op_eq (ExtendedAsset.mk (mk 1 TOK4) 1)
                         (ExtendedAsset.mk (mk 1 TOK4) 2) = Ok false
  /\ ExtendedAsset.op_ne (ExtendedAsset.mk (mk 1 TOK4) 1)
                         (ExtendedAsset.mk (mk 1 TOK4) 2) = Ok true.
Proof. split; [discriminate|]. split; reflexivity. Qed.

(** C3, as the code has it.  For extended assets of different contracts the
    ordering comparisons [<], [<=] and [>=] fail with an
    OwnershipMismatchError.  [==] and [!=] have no ownership gate: they
    compare the quantities first, failing with a SymbolMismatchError when
    the symbols differ, and otherwise answer [false] and [true].  When the
    contracts are the same, each of the five operators is the comparison of
    the two quantities. *)
Theorem extended_comparisons (a b : ExtendedAsset.extended_asset) :
  let qa := ExtendedAsset.quantity a in
  let qb := ExtendedAsset.quantity b in
  (ExtendedAsset.contract a <> ExtendedAsset.contract b ->
   fails (ExtendedAsset.op_lt a b) OwnershipMismatchError
   /\ fails (ExtendedAsset.op_le a b) OwnershipMismatchError
   /\ fails (ExtendedAsset.op_ge a b) OwnershipMismatchError
   /\ (symbol qa = symbol qb ->
       ExtendedAsset.op_eq a b = Ok false
       /\ ExtendedAsset.op_ne a b = Ok true)
   /\ (symbol qa <> symbol qb ->
       fails (ExtendedAsset.op_eq a b) SymbolMismatchError
       /\ fails (ExtendedAsset.op_ne a b) SymbolMismatchError))
  /\
  (ExtendedAsset.contract a = ExtendedAsset.contract b ->
   ExtendedAsset.op_lt a b = op_lt qa qb
   /\ ExtendedAsset.op_le a b = op_le qa qb
   /\ ExtendedAsset.op_ge a b = op_ge qa qb
   /\ ExtendedAsset.op_eq a b = op_eq qa qb
   /\ ExtendedAsset.op_ne a b = op_ne qa qb).
Proof.
  intros qa qb. subst qa qb.
  unfold ExtendedAsset.op_lt, ExtendedAsset.op_le, ExtendedAsset.op_ge,
    ExtendedAsset.op_ne, ExtendedAsset.op_eq, op_ne, op_eq.
  split; intros Hc.
  - apply name_eqb_neq in Hc. rewrite Hc. cbn.
    repeat split; try failing.
    + apply SymbolFacts.eqb_eq in H. rewrite H. cbn.
      rewrite andb_false_r. reflexivity.
    + apply SymbolFacts.eqb_eq in H. rewrite H. cbn.
      rewrite andb_false_r. reflexivity.
    + apply SymbolFacts.eqb_neq in H. rewrite H. cbn. failing.
    + apply SymbolFacts.eqb_neq in H. rewrite H. cbn. failing.
  - apply name_eqb_eq in Hc. rewrite Hc. cbn.
    destruct (Symbol.eqb (symbol (ExtendedAsset.quantity a))
                         (symbol (ExtendedAsset.quantity b))); cbn;
      rewrite ?andb_true_r; repeat split; reflexivity.
Qed.

Lemma extended_comparisons_witness :
  fails (ExtendedAsset.op_lt (ExtendedAsset.mk (mk 1 TOK4) 1)
                             (ExtendedAsset.mk (mk 2 TOK4) 2))
        OwnershipMismatchError
  /\ ExtendedAsset.op_lt (ExtendedAsset.mk (mk 1 TOK4) 1)
                         (ExtendedAsset.mk (mk 2 TOK4) 1) = Ok true.
Proof.
  destruct (extended_comparisons (ExtendedAsset.mk (mk 1 TOK4) 1)
                                 (ExtendedAsset.mk (mk 2 TOK4) 2))
    as [Hne _].
  destruct (extended_comparisons (ExtendedAsset.mk (mk 1 TOK4) 1)
                                 (ExtendedAsset.mk (mk 2 TOK4) 1))
    as [_ Heq].
  split.
  - apply Hne. discriminate.
  - destruct (Heq eq_refl) as [Hlt _]. rewrite Hlt. reflexivity.
Defined.

(** [+=] on the largest amount: the receiver is left with the rejected
    sum. *)
Lemma add_assign_leaves_rejected_amount :
  op_add_assign (mk 1 TOK4) (mk max_amount TOK4) =
    Aborts "addition overflow" (mk (max_amount + 1) TOK4)
  /\ amount (mk (max_amount + 1) TOK4) <> amount (mk max_amount TOK4).
Proof. split; [reflexivity | discriminate]. Qed.

(** C7, as the code has it.  An in-place operation that aborts never
    changes the symbol or the contract of its receiver.  [*=] and [/=]
    store the new amount only after their checks, and a failed symbol or
    contract comparison comes before any store: in these cases the receiver
    is as it was before the call.  [+=], [-=] and [set_amount] store the new
    amount before the range check: when they abort with a RangeError the
    receiver holds the rejected amount (the 64-bit sum or difference, or the
    argument of [set_amount]). *)
Theorem abort_leaves_receiver
        (this a : asset) (s : Z) (x b : ExtendedAsset.extended_asset) :
  (forall msg r, op_mul_assign s this = Aborts msg r -> r = this)
  /\ (forall msg r, op_div_assign s this = Aborts msg r -> r = this)
  /\ (forall msg r, set_amount s this = Aborts msg r ->
      kind_of msg = Some RangeError /\ r = mk s (symbol this))
  /\ (forall msg r, op_add_assign a this = Aborts msg r ->
      (kind_of msg = Some SymbolMismatchError /\ r = this)
      \/ (kind_of msg = Some RangeError
          /\ r = mk (add64 (amount this) (amount a)) (symbol this)))
  /\ (forall msg r, op_sub_assign a this = Aborts msg r ->
      (kind_of msg = Some SymbolMismatchError /\ r = this)
      \/ (kind_of msg = Some RangeError
          /\ r = mk (sub64 (amount this) (amount a)) (symbol this)))
  /\ (forall msg r, ExtendedAsset.op_add_assign b x = Aborts msg r ->
      ExtendedAsset.contract r = ExtendedAsset.contract x
      /\ symbol (ExtendedAsset.quantity r) = symbol (ExtendedAsset.quantity x)
      /\ (((kind_of msg = Some OwnershipMismatchError
            \/ kind_of msg = Some SymbolMismatchError) /\ r = x)
          \/ (kind_of msg = Some RangeError
              /\ amount (ExtendedAsset.quantity r) =
                   add64 (amount (ExtendedAsset.quantity x))
                         (amount (ExtendedAsset.quantity b)))))
  /\ (forall msg r, ExtendedAsset.op_sub_assign b x = Aborts msg r ->
      ExtendedAsset.contract r = ExtendedAsset.contract x
      /\ symbol (ExtendedAsset.quantity r) = symbol (ExtendedAsset.quantity x)
      /\ (((kind_of msg = Some OwnershipMismatchError
            \/ kind_of msg = Some SymbolMismatchError) /\ r = x)
          \/ (kind_of msg = Some RangeError
              /\ amount (ExtendedAsset.quantity r) =
                   sub64 (amount (ExtendedAsset.quantity x))
                         (amount (ExtendedAsset.quantity b))))).
Proof.
  assert (Hadd : forall a this msg r, op_add_assign a this = Aborts msg r ->
    (kind_of msg = Some SymbolMismatchError /\ r = this)
    \/ (kind_of msg = Some RangeError
        /\ r = mk (add64 (amount this) (amount a)) (symbol this))).
  { clear. intros a this msg r. rewrite op_add_assign_run. cbn zeta.
    repeat match goal with
           | |- context [if ?c then _ else _] => destruct c
           end; intros [= <- <-]; auto. }
  assert (Hsub : forall a this msg r, op_sub_assign a this = Aborts msg r ->
    (kind_of msg = Some SymbolMismatchError /\ r = this)
    \/ (kind_of msg = Some RangeError
        /\ r = mk (sub64 (amount this) (amount a)) (symbol this))).
  { clear. intros a this msg r. rewrite op_sub_assign_run. cbn zeta.
    repeat match goal with
           | |- context [if ?c then _ else _] => destruct c
           end; intros [= <- <-]; auto. }
  repeat split.
  - intros msg r. rewrite op_mul_assign_run. cbn zeta.
    repeat match goal with
           | |- context [if ?c then _ else _] => destruct c
           end; intros [= <- <-]; reflexivity.
  - intros msg r. rewrite op_div_assign_run.
    repeat match goal with
           | |- context [if ?c then _ else _] => destruct c
           end; intros [= <- <-]; reflexivity.
  - revert H. rewrite set_amount_run. cbn zeta.
    destruct (is_amount_within_range _); intros [= <- <-]; reflexivity.
  - revert H. rewrite set_amount_run. cbn zeta.
    destruct (is_amount_within_range _); intros [= <- <-]; reflexivity.
  - apply Hadd.
  - apply Hsub.
  - revert H. rewrite ext_add_assign_run.
    destruct (name_eqb _ _); [|intros [= <- <-]; reflexivity].
    intros H. apply on_quantity_Aborts in H. tauto.
  - revert H. rewrite ext_add_assign_run.
    destruct (name_eqb _ _); [|intros [= <- <-]; reflexivity].
    intros H. apply on_quantity_Aborts in H. destruct H as [H _].
    apply Hadd in H. destruct H as [[_ ->]|[_ ->]]; reflexivity.
  - revert H. rewrite ext_add_assign_run.
    destruct (name_eqb _ _); [|intros [= <- <-]; auto].
    intros H. apply on_quantity_Aborts in H. destruct H as [H Hc].
    apply Hadd in H. destruct H as [[K E]|[K E]].
    + left. split; [auto|]. rewrite (eta r), (eta x). congruence.
    + right. split; [assumption|]. rewrite E. reflexivity.
  - revert H. rewrite ext_sub_assign_run.
    destruct (name_eqb _ _); [|intros [= <- <-]; reflexivity].
    intros H. apply on_quantity_Aborts in H. tauto.
  - revert H. rewrite ext_sub_assign_run.
    destruct (name_eqb _ _); [|intros [= <- <-]; reflexivity].
    intros H. apply on_quantity_Aborts in H. destruct H as [H _].
    apply Hsub in H. destruct H as [[_ ->]|[_ ->]]; reflexivity.
  - revert H. rewrite ext_sub_assign_run.
    destruct (name_eqb _ _); [|intros [= <- <-]; auto].
    intros H. apply on_quantity_Aborts in H. destruct H as [H Hc].
    apply Hsub in H. destruct H as [[K E]|[K E]].
    + left. split; [auto|]. rewrite (eta r), (eta x). congruence.
    + right. split; [assumption|]. rewrite E. reflexivity.
Qed.

(** C10.  An asset is encoded as its amount, an 8-byte signed little-endian
    integer, followed by the 8-byte encoding of its symbol; an extended
    asset as the encoding of its quantity followed by the contract.  For
    every valid asset, and every extended asset whose quantity is valid and
    whose contract is an account name, decoding the encoding gives the value
    back and consumes exactly the bytes written. *)
Theorem decode_encode (x : ExtendedAsset.extended_asset) (rest : list byte) :
  let q := ExtendedAsset.quantity x in
  is_valid q = true -> is_uint64 (ExtendedAsset.contract x) ->
  encode_asset q = le_split 8 (amount q) ++ encode_symbol (symbol q)
  /\ List.length (le_split 8 (amount q)) = 8%nat
  /\ List.length (encode_symbol (symbol q)) = 8%nat
  /\ wrap64 (le_combine (le_split 8 (amount q))) = amount q
  /\ encode_extended_asset x =
       encode_asset q ++ encode_name (ExtendedAsset.contract x)
  /\ decode_asset (encode_asset q ++ rest) = Some (q, rest)
  /\ decode_extended_asset (encode_extended_asset x ++ rest) = Some (x, rest).
Proof.
  intros q Hv Hc. subst q.
  split; [reflexivity|]. split; [apply length_le_split|].
  split; [apply length_write_word|]. split.
  { rewrite le_combine_split. apply wrap64_mod, within_int64.
    apply is_valid_iff in Hv. tauto. }
  split; [reflexivity|]. split; [apply decode_encode_asset; exact Hv|].
  unfold decode_extended_asset, encode_extended_asset.
  rewrite <- app_assoc, decode_encode_asset by exact Hv.
  rewrite decode_encode_name by exact Hc.
  destruct x; reflexivity.
Qed.

Lemma decode_encode_witness :
  is_valid (mk (-5) SYS2) = true /\ is_uint64 6138663577826885632
  /\ decode_extended_asset
       (encode_extended_asset
          (ExtendedAsset.mk (mk (-5) SYS2) 6138663577826885632) ++ [])
     = Some (ExtendedAsset.mk (mk (-5) SYS2) 6138663577826885632, []).
Proof.
  assert (Hv : is_valid (mk (-5) SYS2) = true) by reflexivity.
  assert (Hc : is_uint64 6138663577826885632) by (unfold is_uint64; lia).
  split; [exact Hv|]. split; [exact Hc|].
  apply (decode_encode (ExtendedAsset.mk (mk (-5) SYS2) 6138663577826885632)
                       [] Hv Hc).
Defined.

(** The renderings the specification lists. *)
Lemma to_string_examples :
  to_string (mk (-5) SYS2) = "-0.05 SYS"%string
  /\ to_string (mk 100000 TOK4) = "10.0000 TOK"%string
  /\ to_string (mk 123456 TOK4) = "12.3456 TOK"%string.
Proof. repeat split; reflexivity. Qed.

(** C9.  The rendering of a negative amount whose integer part is not zero:
    [asset(-150, {2, "SYS"})] is rendered with two minus signs, where one
    is asked for. *)
Theorem to_string_negative_integer_part :
  Symbol.is_valid SYS2 = true
  /\ to_string (mk (-150) SYS2) = "--1.50 SYS"%string
  /\ to_string (mk (-150) SYS2) <> "-1.50 SYS"%string.
Proof. split; [reflexivity|]. split; [reflexivity | discriminate]. Qed.

End Claims.

(* ------------------------------------------------------------------ *)
(** ** Laws of the comparison and arithmetic operators *)

Module OperatorFacts.
Import Int IntFacts Asset AssetFacts.

Lemma eqb_sym (s t : Symbol.symbol) : Symbol.eqb s t = Symbol.eqb t s.
Proof.
  destruct (Symbol.eqb t s) eqn:E.
  - apply SymbolFacts.eqb_eq in E. subst. apply SymbolFacts.eqb_refl.
  - apply SymbolFacts.eqb_neq. apply SymbolFacts.eqb_neq in E. congruence.
Qed.

Lemma asset_eta (a : asset) : a = mk (amount a) (symbol a).
Proof. destruct a; reflexivity. Qed.

(** The by-value operators, by cases on the checks of their in-place twins. *)
Lemma op_add_run (a b : asset) :
  op_add a b =
    if Symbol.eqb (symbol b) (symbol a) then
      let r := mk (add64 (amount a) (amount b)) (symbol a) in
      if - max_amount <=? amount r then
        if amount r <=? max_amount then Ok r else Error "addition overflow"
      else Error "addition underflow"
    else Error "attempt to add asset with different symbol".
Proof.
  unfold op_add, on_copy. rewrite op_add_assign_run. cbn zeta.
  repeat match goal with
         | |- context [if ?c then _ else _] => destruct c
         end; reflexivity.
Qed.

Lemma op_sub_run (a b : asset) :
  op_sub a b =
    if Symbol.eqb (symbol b) (symbol a) then
      let r := mk (sub64 (amount a) (amount b)) (symbol a) in
      if - max_amount <=? amount r then
        if amount r <=? max_amount then Ok r else Error "subtraction overflow"
      else Error "subtraction underflow"
    else Error "attempt to subtract asset with different symbol".
Proof.
  unfold op_sub, on_copy. rewrite op_sub_assign_run. cbn zeta.
  repeat match goal with
         | |- context [if ?c then _ else _] => destruct c
         end; reflexivity.
Qed.

(** A sum that is returned passed the symbol check and both range checks. *)
Lemma op_add_Ok (a b r : asset) :
  op_add a b = Ok r ->
  symbol a = symbol b
  /\ r = mk (add64 (amount a) (amount b)) (symbol a)
  /\ within (add64 (amount a) (amount b)).
Proof.
  rewrite op_add_run. cbn zeta. cbn [amount].
  destruct (Symbol.eqb (symbol b) (symbol a)) eqn:Es; [|discriminate].
  destruct (Z.leb_spec (- max_amount) (add64 (amount a) (amount b)));
    [|discriminate].
  destruct (Z.leb_spec (add64 (amount a) (amount b)) max_amount);
    [|discriminate].
  intros [= <-]. apply SymbolFacts.eqb_eq in Es.
  unfold within. auto.
Qed.

Lemma op_sub_Ok (a b r : asset) :
  op_sub a b = Ok r ->
  symbol a = symbol b
  /\ r = mk (sub64 (amount a) (amount b)) (symbol a)
  /\ within (sub64 (amount a) (amount b)).
Proof.
  rewrite op_sub_run. cbn zeta. cbn [amount].
  destruct (Symbol.eqb (symbol b) (symbol a)) eqn:Es; [|discriminate].
  destruct (Z.leb_spec (- max_amount) (sub64 (amount a) (amount b)));
    [|discriminate].
  destruct (Z.leb_spec (sub64 (amount a) (amount b)) max_amount);
    [|discriminate].
  intros [= <-]. apply SymbolFacts.eqb_eq in Es.
  unfold within. auto.
Qed.

(** What [a + b] returns when the exact sum is within range. *)
Lemma op_add_within (a b : asset) :
  symbol a = symbol b -> within (amount a) -> within (amount b) ->
  within (amount a + amount b) ->
  op_add a b = Ok (mk (amount a + amount b) (symbol a)).
Proof.
  intros Hs Ha Hb Hr. unfold op_add, on_copy.
  destruct (Arithmetic.op_add_assign_within a b Hs Ha Hb) as [[_ E]|[Hn _]];
    [rewrite E; reflexivity | contradiction].
Qed.

Lemma op_sub_within (a b : asset) :
  symbol a = symbol b -> within (amount a) -> within (amount b) ->
  within (amount a - amount b) ->
  op_sub a b = Ok (mk (amount a - amount b) (symbol a)).
Proof.
  intros Hs Ha Hb Hr. unfold op_sub, on_copy.
  destruct (Arithmetic.op_sub_assign_within a b Hs Ha Hb) as [[_ E]|[Hn _]];
    [rewrite E; reflexivity | contradiction].
Qed.

(** A product that is returned is the exact product, within range. *)
Lemma op_mul_Ok (a : asset) (s : Z) (r : asset) :
  is_int64 (amount a) -> is_int64 s -> op_mul a s = Ok r ->
  r = mk (amount a * s) (symbol a) /\ within (amount a * s).
Proof.
  intros Ha Hs. unfold op_mul, on_copy.
  destruct (Arithmetic.op_mul_assign_int64 a s Ha Hs)
    as [[Hin E]|[_ (msg & E & _)]]; rewrite E; [|discriminate].
  intros [= <-]. split; [reflexivity|]. unfold within. lia.
Qed.

(** Failing with a given message is failing with the kind of the message. *)
Lemma fails_Error {A : Type} (msg : string) (k : error_kind) :
  fails (@Error A msg) k <-> kind_of msg = Some k.
Proof.
  unfold fails. split.
  - intros (m & [= <-] & K). exact K.
  - intros K. exists msg. auto.
Qed.

Lemma fails_Ok {A : Type} (x : A) (k : error_kind) : ~ fails (Ok x) k.
Proof. intros (m & E & _). discriminate E. Qed.

Lemma op_neg_within (b : asset) :
  within (amount b) ->
  op_neg b = mk (- amount b) (symbol b) /\ within (- amount b).
Proof.
  intros Hb. unfold op_neg. rewrite (neg64_exact _ Hb).
  split; [reflexivity|]. unfold within in *. lia.
Qed.

(** What [a / s] returns on an amount within range. *)
Lemma op_div_within (a : asset) (s : Z) :
  within (amount a) -> s <> 0 ->
  op_div a s = Ok (mk (Z.quot (amount a) s) (symbol a))
  /\ Z.abs (Z.quot (amount a) s) <= Z.abs (amount a).
Proof.
  intros Ha Hs. unfold op_div, on_copy.
  destruct (Arithmetic.op_div_assign_int64 a s (within_int64 _ Ha))
    as [[H0 _]|[(_ & Hm & _)|(_ & _ & E)]].
  - contradiction.
  - exfalso. unfold within in Ha. rewrite max_amount_eq in Ha.
    unfold int64_min in Hm. lia.
  - rewrite E. split; [reflexivity | apply quot_abs_le; assumption].
Qed.

End OperatorFacts.

(* ------------------------------------------------------------------ *)
(** ** The rendering, character by character *)

Module RenderExact.
Import Int IntFacts Asset AssetFacts Decimals.

Lemma length_append (s t : string) :
  String.length (s ++ t) = (String.length s + String.length t)%nat.
Proof. induction s as [|c s IH]; cbn; [reflexivity | rewrite IH; reflexivity]. Qed.

Lemma append_assoc (s t u : string) : ((s ++ t) ++ u = s ++ (t ++ u))%string.
Proof. induction s as [|c s IH]; cbn; [reflexivity | rewrite IH; reflexivity]. Qed.

(** [snprintf] does not cut a string that fits. *)
Lemma substring_all (s : string) :
  forall n, (String.length s <= n)%nat -> substring 0 n s = s.
Proof.
  induction s as [|c s IH]; intros n Hn.
  - destruct n; reflexivity.
  - destruct n as [|n]; [cbn in Hn; lia|].
    cbn. rewrite IH by (cbn in Hn; lia). reflexivity.
Qed.

Lemma all_digits_append (s t : string) :
  all_digits (s ++ t) = all_digits s && all_digits t.
Proof.
  induction s as [|c s IH]; cbn; [reflexivity|].
  rewrite IH, andb_assoc. reflexivity.
Qed.

Lemma value_of_append (s t : string) :
  forall acc, value_of acc (s ++ t) = value_of (value_of acc s) t.
Proof. induction s as [|c s IH]; intros acc; cbn; [reflexivity | apply IH]. Qed.

(** *** The digits of an unsigned decimal numeral *)

Lemma usize_nb_digits (d : Decimal.uint) :
  DecimalPos.Unsigned.usize d = N.of_nat (Decimal.nb_digits d).
Proof.
  induction d; cbn [DecimalPos.Unsigned.usize Decimal.nb_digits];
    rewrite ?IHd; lia.
Qed.

Lemma length_string_of_uint (d : Decimal.uint) :
  String.length (NilEmpty.string_of_uint d) = Decimal.nb_digits d.
Proof. induction d; cbn; congruence. Qed.

Lemma length_string_of_uint_nonnil (u : Decimal.uint) :
  u <> Decimal.Nil ->
  String.length (NilZero.string_of_uint u) = Decimal.nb_digits u.
Proof.
  intros Hnil. destruct u; [congruence|..]; apply length_string_of_uint.
Qed.

(** A numeral whose leading digit is not zero is at least the power of ten
    of the number of its other digits. *)
Lemma of_uint_lower (u : Decimal.uint) :
  Decimal.nzhead u = u -> u <> Decimal.Nil ->
  (10 ^ N.of_nat (Nat.pred (Decimal.nb_digits u)) <= Pos.of_uint u)%N.
Proof.
  intros Hn Hnil. rewrite DecimalPos.Unsigned.of_uint_alt.
  destruct u as [|u|u|u|u|u|u|u|u|u|u]; [congruence| |..].
  1:{ exfalso. cbn [Decimal.nzhead] in Hn.
      pose proof (DecimalFacts.nb_digits_nzhead u) as H.
      rewrite Hn in H. cbn in H. lia. }
  all: unfold Decimal.rev; cbn [Decimal.revapp];
    rewrite DecimalPos.Unsigned.of_lu_revapp;
    cbn [Decimal.nb_digits Nat.pred]; rewrite usize_nb_digits;
    cbn [DecimalPos.Unsigned.of_lu]; rewrite N.mul_0_r, N.add_0_r;
    change (Decimal.revapp u Decimal.Nil) with (Decimal.rev u); nia.
Qed.

Lemma to_uint_normal (p : positive) :
  Decimal.nzhead (Pos.to_uint p) = Pos.to_uint p.
Proof.
  pose proof (DecimalPos.Unsigned.to_of (Pos.to_uint p)) as H.
  rewrite DecimalPos.Unsigned.of_to in H. cbn [N.to_uint] in H.
  unfold Decimal.unorm in H.
  destruct (Decimal.nzhead (Pos.to_uint p)) eqn:E; try congruence.
  exfalso. apply (DecimalPos.Unsigned.to_uint_nonzero p). exact H.
Qed.

Lemma nb_digits_to_uint (p : positive) (n : nat) :
  (N.pos p < 10 ^ N.of_nat n)%N ->
  (Decimal.nb_digits (Pos.to_uint p) <= n)%nat.
Proof.
  intros Hlt.
  pose proof (of_uint_lower _ (to_uint_normal p)
                            (DecimalPos.Unsigned.to_uint_nonnil p)) as H.
  rewrite DecimalPos.Unsigned.of_to in H.
  destruct (Nat.le_gt_cases (Decimal.nb_digits (Pos.to_uint p)) n)
    as [|Hgt]; [assumption|].
  exfalso.
  assert (10 ^ N.of_nat n
          <= 10 ^ N.of_nat (Nat.pred (Decimal.nb_digits (Pos.to_uint p))))%N
    by (apply N.pow_le_mono_r; lia).
  lia.
Qed.

(** [%lld] of a number below [10^n] writes at most [n] digits. *)
Lemma lld_length (q : Z) (n : nat) :
  0 <= q < 10 ^ Z.of_nat n -> (0 < n)%nat ->
  (String.length (lld q) <= n)%nat.
Proof.
  intros [H0 Hlt] Hn. unfold lld.
  destruct q as [|p|p]; [cbn; lia | | lia].
  cbn [Z.to_int NilZero.string_of_int].
  rewrite length_string_of_uint_nonnil
    by apply DecimalPos.Unsigned.to_uint_nonnil.
  apply nb_digits_to_uint.
  apply N2Z.inj_lt. rewrite N2Z.inj_pow, nat_N_Z. cbn. exact Hlt.
Qed.

Lemma lld_opp (q : Z) : 0 < q -> lld (- q) = String "-" (lld q).
Proof. destruct q; try lia. reflexivity. Qed.

(** [%lld] of a 64-bit number writes at most 20 characters. *)
Lemma lld_length_int64 (q : Z) :
  is_int64 q -> (String.length (lld q) <= 20)%nat.
Proof.
  unfold is_int64, int64_min, int64_max. intros Hq.
  destruct (Z.le_gt_cases 0 q).
  - pose proof (lld_length q 19) as H19.
    change (10 ^ Z.of_nat 19) with 10000000000000000000 in H19. lia.
  - replace q with (- - q) by lia. rewrite lld_opp by lia.
    pose proof (lld_length (- q) 19) as H19.
    change (10 ^ Z.of_nat 19) with 10000000000000000000 in H19.
    cbn [String.length]. lia.
Qed.

(** *** The fraction loop *)

Lemma digit_char_spec (change : Z) :
  0 <= change <= int64_max ->
  is_digit (digit_char change) = true
  /\ Z.of_N (N_of_ascii (digit_char change)) - 48 = change mod 10.
Proof.
  intros Hc. unfold digit_char, rem64.
  rewrite Z.rem_mod_nonneg by lia.
  pose proof (Z.mod_pos_bound change 10 ltac:(lia)) as Hm.
  rewrite wrap64_small
    by (unfold is_int64, int64_min, int64_max in *; lia).
  rewrite (Z.mod_small (change mod 10 + 48)) by lia.
  unfold is_digit. cbn zeta.
  rewrite N_ascii_embedding by lia. rewrite Z2N.id by lia.
  split; [|lia].
  apply andb_true_iff. split; apply Z.leb_le; lia.
Qed.

Lemma fraction_loop_spec (i : nat) :
  forall change fraction, 0 <= change <= int64_max ->
  exists digits,
    fraction_loop i change fraction = (digits ++ fraction)%string
    /\ String.length digits = i
    /\ all_digits digits = true
    /\ value_of 0 digits = change mod 10 ^ Z.of_nat i.
Proof.
  induction i as [|i IH]; intros change fraction Hc.
  - exists EmptyString. cbn. rewrite Z.mod_1_r. auto.
  - cbn [fraction_loop].
    assert (Hq : div64 change 10 = change / 10).
    { unfold div64. rewrite Z.quot_div_nonneg by lia.
      apply wrap64_small.
      pose proof (Z.div_pos change 10 ltac:(lia) ltac:(lia)).
      assert (change / 10 <= change)
        by (apply Z.div_le_upper_bound; lia).
      unfold is_int64, int64_min, int64_max in *. lia. }
    rewrite Hq.
    assert (Hc' : 0 <= change / 10 <= int64_max).
    { pose proof (Z.div_pos change 10 ltac:(lia) ltac:(lia)).
      assert (change / 10 <= change)
        by (apply Z.div_le_upper_bound; lia).
      lia. }
    destruct (IH (change / 10) (String (digit_char change) fraction) Hc')
      as (digits & E & Hlen & Hall & Hval).
    destruct (digit_char_spec change Hc) as [Hd Hv].
    exists (digits ++ String (digit_char change) EmptyString)%string.
    rewrite E, append_assoc. cbn [append].
    rewrite length_append, all_digits_append, value_of_append.
    cbn [String.length all_digits value_of]. rewrite Hlen, Hall, Hd, Hval, Hv.
    repeat split; [lia|].
    rewrite Nat2Z.inj_succ, Z.pow_succ_r by lia.
    rewrite Z.rem_mul_r by (try lia; apply Z.pow_pos_nonneg; lia). lia.
Qed.

(** *** The whole rendering *)

(** For a valid symbol and a 64-bit amount nothing is cut: the rendering is
    the sign of the format, the integer part as [%lld] writes it, a dot,
    the digits of the magnitude below the decimal point, a space and the
    code. *)
Lemma to_string_shape (this : asset) :
  let p := Symbol.precision (symbol this) in
  Symbol.is_valid (symbol this) = true -> is_int64 (amount this) ->
  exists digits,
    to_string this =
      ((if (amount this <? 0)%Z then "-" else "")
       ++ lld (Z.quot (amount this) (10 ^ p)%Z) ++ "." ++ digits ++ " "
       ++ Symbol.code (symbol this))%string
    /\ String.length digits = Z.to_nat p
    /\ all_digits digits = true
    /\ value_of 0 digits = Z.abs (amount this) mod 10 ^ p.
Proof.
  intros p Hv Ha. subst p.
  destruct (RenderFacts.pow10_of_valid _ Hv) as (Hp & Hp10 & Hb).
  assert (Hcode : (String.length (Symbol.code (symbol this)) <= 7)%nat).
  { unfold Symbol.is_valid in Hv. rewrite !andb_true_iff, !Z.leb_le in Hv.
    lia. }
  unfold to_string. cbn zeta. rewrite Hp10.
  set (p10 := 10 ^ Symbol.precision (symbol this)) in *.
  change (10 ^ 18) with 1000000000000000000 in Hb.
  assert (Hrem : rem64 (amount this) p10 = Z.rem (amount this) p10).
  { unfold rem64. apply wrap64_small.
    pose proof (Z.rem_bound_abs (amount this) p10 ltac:(lia)).
    unfold is_int64, int64_min, int64_max. lia. }
  assert (Hchange :
    mul64 (rem64 (amount this) p10) (if amount this <? 0 then -1 else 1)
    = Z.abs (amount this) mod p10).
  { rewrite Hrem. unfold mul64.
    rewrite <- (Z.rem_mod_nonneg (Z.abs (amount this)) p10) by lia.
    pose proof (Z.rem_bound_pos (Z.abs (amount this)) p10
                  ltac:(lia) ltac:(lia)) as Hr.
    destruct (Z.ltb_spec (amount this) 0) as [Hneg|Hpos].
    - replace (Z.abs (amount this)) with (- amount this) in * by lia.
      rewrite Z.rem_opp_l' in *.
      replace (Z.rem (amount this) p10 * -1)
        with (- Z.rem (amount this) p10) by lia.
      apply wrap64_small. unfold is_int64, int64_min, int64_max. lia.
    - replace (Z.abs (amount this)) with (amount this) in * by lia.
      rewrite Z.mul_1_r.
      apply wrap64_small. unfold is_int64, int64_min, int64_max. lia. }
  rewrite Hchange.
  rewrite div64_exact by (assumption || lia).
  pose proof (Z.mod_pos_bound (Z.abs (amount this)) p10 ltac:(lia)) as Hm.
  destruct (fraction_loop_spec
              (Z.to_nat (Symbol.precision (symbol this)))
              (Z.abs (amount this) mod p10) EmptyString
              ltac:(unfold int64_max; lia))
    as (digits & E & Hlen & Hall & Hval).
  rewrite E. exists digits.
  rewrite Z2Nat.id in Hval by lia. fold p10 in Hval.
  rewrite Z.mod_mod in Hval by lia.
  split; [|auto].
  assert (Hq : is_int64 (Z.quot (amount this) p10)).
  { pose proof (quot_abs_le (amount this) p10 ltac:(lia)) as Hle.
    unfold is_int64, int64_min, int64_max in *.
    destruct (Z.le_gt_cases 0 (amount this)) as [Hpos|Hneg].
    - pose proof (Z.quot_pos (amount this) p10 Hpos ltac:(lia)). lia.
    - pose proof (Z.quot_pos (- amount this) p10 ltac:(lia) ltac:(lia)) as Hn.
      rewrite Z.quot_opp_l in Hn by lia. lia. }
  pose proof (lld_length_int64 _ Hq) as Hlld.
  replace (digits ++ "")%string with digits
    by (clear; induction digits as [|c d IH]; cbn; congruence).
  unfold snprintf.
  destruct (amount this <? 0); (rewrite substring_all; [reflexivity|]);
    rewrite ?length_append; cbn [String.length];
    rewrite ?length_append; cbn [String.length];
    rewrite ?length_append; cbn [String.length];
    rewrite ?length_append; cbn [String.length]; lia.
Qed.

End RenderExact.

(* ------------------------------------------------------------------ *)
(** ** The arithmetic of [extended_asset], by cases *)

Module ExtendedOperatorFacts.
Import Int Asset AssetFacts ExtendedAsset ExtendedFacts OperatorFacts.

Lemma ext_add_run (a b : extended_asset) :
  ExtendedAsset.op_add a b =
    if name_eqb (contract a) (contract b) then
      match Asset.op_add (quantity a) (quantity b) with
      | Ok q => Ok (ExtendedAsset.mk q (contract a))
      | Error msg => Error msg
      end
    else Error "type mismatch".
Proof.
  unfold ExtendedAsset.op_add. cbn.
  destruct (name_eqb (contract a) (contract b)); reflexivity.
Qed.

Lemma ext_sub_run (a b : extended_asset) :
  ExtendedAsset.op_sub a b =
    if name_eqb (contract a) (contract b) then
      match Asset.op_sub (quantity a) (quantity b) with
      | Ok q => Ok (ExtendedAsset.mk q (contract a))
      | Error msg => Error msg
      end
    else Error "type mismatch".
Proof.
  unfold ExtendedAsset.op_sub. cbn.
  destruct (name_eqb (contract a) (contract b)); reflexivity.
Qed.

(** The asset operators know nothing of contracts. *)
Lemma asset_add_not_ownership (a b : asset) :
  ~ fails (Asset.op_add a b) OwnershipMismatchError.
Proof.
  rewrite op_add_run. cbn zeta.
  repeat match goal with
         | |- context [if ?c then _ else _] => destruct c
         end; intros H; not_failing H.
Qed.

Lemma asset_sub_not_ownership (a b : asset) :
  ~ fails (Asset.op_sub a b) OwnershipMismatchError.
Proof.
  rewrite op_sub_run. cbn zeta.
  repeat match goal with
         | |- context [if ?c then _ else _] => destruct c
         end; intros H; not_failing H.
Qed.

(** Failure passes unchanged through the wrapping of a result, through a
    call on the quantity, and through a call on a copy. *)
Lemma fails_map {A B : Type} (r : result A) (f : A -> B) (k : error_kind) :
  fails (match r with Ok q => Ok (f q) | Error msg => Error msg end) k
  <-> fails r k.
Proof.
  destruct r as [q|msg].
  - split; intros H; not_failing H.
  - rewrite !fails_Error. reflexivity.
Qed.

Lemma fails_on_copy {S A : Type} (a : S) (op : exec S A) (k : error_kind) :
  fails (on_copy a op) k <-> aborts (op a) k.
Proof.
  unfold on_copy. destruct (op a) as [x r|msg r].
  - split; intros H; not_failing H.
  - rewrite fails_Error. split.
    + intros K. exists msg, r. auto.
    + intros (m & t & [= <- <-] & K). exact K.
Qed.

Lemma aborts_on_quantity {A : Type} (op : exec asset A)
      (a : extended_asset) (k : error_kind) :
  aborts (on_quantity op a) k <-> aborts (op (quantity a)) k.
Proof.
  unfold on_quantity. destruct (op (quantity a)) as [x q|msg q].
  - split; intros H; not_failing H.
  - split; intros (m & t & [= <- <-] & K); eexists; eexists; eauto.
Qed.

End ExtendedOperatorFacts.

Section Extras.
  Import Int IntFacts Asset AssetFacts Arithmetic Invariant InvariantFacts.
  Import OperatorFacts Decimals RenderExact ExtendedFacts.
  Import ExtendedOperatorFacts.

(** Discharges a range side condition at a literal. *)
Ltac range_literal :=
  unfold within, is_int64, is_uint64, int64_min, int64_max;
  try rewrite max_amount_eq; cbn [amount]; lia.

(** X1.  [a == b] answers [true] exactly when the two assets are the same
    value, and [a != b] answers [true] exactly when they have the same
    symbol and different amounts; both fail, with a SymbolMismatchError,
    exactly when the symbols differ, so two assets of different symbols are
    never reported unequal. *)
Theorem eq_ne_decide (a b : asset) :
  (op_eq a b = Ok true <-> a = b)
  /\ (op_eq a b = Ok false <-> symbol a = symbol b /\ amount a <> amount b)
  /\ (op_ne a b = Ok true <-> symbol a = symbol b /\ amount a <> amount b)
  /\ (op_ne a b = Ok false <-> a = b)
  /\ (fails (op_eq a b) SymbolMismatchError <-> symbol a <> symbol b)
  /\ (fails (op_ne a b) SymbolMismatchError <-> symbol a <> symbol b).
Proof.
  unfold op_ne, op_eq. cbn.
  destruct (Symbol.eqb (symbol a) (symbol b)) eqn:Es; cbn.
  - apply SymbolFacts.eqb_eq in Es.
    destruct (Z.eqb_spec (amount a) (amount b)) as [Ea|Ea]; cbn.
    + assert (a = b) by (rewrite (asset_eta a), (asset_eta b); congruence).
      repeat split; intros; settle.
    + assert (a <> b) by congruence.
      repeat split; intros; settle.
  - apply SymbolFacts.eqb_neq in Es.
    assert (a <> b) by congruence.
    repeat split; intros; settle.
Qed.

(** X2.  The ordering operators on assets: each of [<], [<=], [>], [>=]
    fails with a SymbolMismatchError exactly when the symbols differ;
    [a > b] is [b < a] and [a >= b] is [b <= a], failures included; and for
    two assets of the same symbol exactly one of [a < b], [a == b], [a > b]
    answers [true], while [a <= b] is the negation of [a > b]. *)
Theorem order_laws (a b : asset) :
  (fails (op_lt a b) SymbolMismatchError <-> symbol a <> symbol b)
  /\ (fails (op_le a b) SymbolMismatchError <-> symbol a <> symbol b)
  /\ (fails (op_gt a b) SymbolMismatchError <-> symbol a <> symbol b)
  /\ (fails (op_ge a b) SymbolMismatchError <-> symbol a <> symbol b)
  /\ op_gt a b = op_lt b a
  /\ op_ge a b = op_le b a
  /\ (symbol a = symbol b ->
      (op_lt a b = Ok true /\ op_eq a b = Ok false /\ op_gt a b = Ok false
       /\ op_le a b = Ok true /\ op_ge a b = Ok false)
      \/ (op_lt a b = Ok false /\ op_eq a b = Ok true /\ op_gt a b = Ok false
          /\ op_le a b = Ok true /\ op_ge a b = Ok true)
      \/ (op_lt a b = Ok false /\ op_eq a b = Ok false /\ op_gt a b = Ok true
          /\ op_le a b = Ok false /\ op_ge a b = Ok true)).
Proof.
  unfold op_lt, op_le, op_gt, op_ge, op_eq. cbn.
  rewrite (eqb_sym (symbol b) (symbol a)).
  rewrite Z.gtb_ltb, Z.geb_leb.
  destruct (Symbol.eqb (symbol a) (symbol b)) eqn:Es; cbn.
  - apply SymbolFacts.eqb_eq in Es.
    repeat split; intros; settle.
    destruct (Z.ltb_spec (amount a) (amount b));
      destruct (Z.ltb_spec (amount b) (amount a));
      destruct (Z.leb_spec (amount a) (amount b));
      destruct (Z.leb_spec (amount b) (amount a));
      destruct (Z.eqb_spec (amount a) (amount b)); try lia; tauto.
  - apply SymbolFacts.eqb_neq in Es.
    repeat split; intros; settle.
Qed.

(** X3.  [<] on assets is transitive: a chain of two comparisons that both
    answer [true] gives a third that does not fail and answers [true]. *)
Theorem lt_transitive (a b c : asset) :
  op_lt a b = Ok true -> op_lt b c = Ok true -> op_lt a c = Ok true.
Proof.
  unfold op_lt. cbn.
  destruct (Symbol.eqb (symbol a) (symbol b)) eqn:Eab; [|discriminate].
  destruct (Symbol.eqb (symbol b) (symbol c)) eqn:Ebc; [|discriminate].
  apply SymbolFacts.eqb_eq in Eab, Ebc.
  rewrite Eab, Ebc, SymbolFacts.eqb_refl. cbn.
  intros [= H1] [= H2]. f_equal.
  apply Z.ltb_lt in H1, H2. apply Z.ltb_lt. lia.
Qed.

Lemma lt_transitive_witness :
  op_lt (mk 1 SYS2) (mk 3 SYS2) = Ok true.
Proof.
  apply (lt_transitive (mk 1 SYS2) (mk 2 SYS2) (mk 3 SYS2)); reflexivity.
Defined.

(** X4.  Addition of assets is commutative, failures included: [a + b] and
    [b + a] return the same asset or fail with the same message, whatever
    the symbols and the amounts. *)
Theorem add_commutative (a b : asset) : op_add a b = op_add b a.
Proof.
  rewrite !op_add_run. cbn zeta. cbn [amount].
  rewrite (eqb_sym (symbol b) (symbol a)).
  destruct (Symbol.eqb (symbol a) (symbol b)) eqn:Es; [|reflexivity].
  apply SymbolFacts.eqb_eq in Es. unfold add64.
  rewrite (Z.add_comm (amount b) (amount a)), Es. reflexivity.
Qed.

(** X5.  Subtraction undoes addition: when [a + b] of two assets within
    range returns [r], then [r - b] returns [a] and [r - a] returns [b]. *)
Theorem add_then_sub (a b r : asset) :
  within (amount a) -> within (amount b) -> op_add a b = Ok r ->
  op_sub r b = Ok a /\ op_sub r a = Ok b.
Proof.
  intros Ha Hb E. apply op_add_Ok in E. destruct E as (Hs & -> & Hr).
  rewrite (add64_exact _ _ Ha Hb) in *.
  assert (Ea : amount a + amount b - amount b = amount a) by lia.
  assert (Eb : amount a + amount b - amount a = amount b) by lia.
  split.
  - rewrite op_sub_within; cbn [amount symbol]; rewrite ?Ea;
      try assumption.
    rewrite <- asset_eta. reflexivity.
  - rewrite op_sub_within; cbn [amount symbol]; rewrite ?Eb;
      try assumption; try reflexivity.
    rewrite Hs, <- asset_eta. reflexivity.
Qed.

Lemma add_then_sub_witness :
  op_sub (mk 7 SYS2) (mk 4 SYS2) = Ok (mk 3 SYS2).
Proof.
  apply (add_then_sub (mk 3 SYS2) (mk 4 SYS2) (mk 7 SYS2));
    [range_literal | range_literal | reflexivity].
Defined.

(** X6.  Adding the negation is subtracting: for two assets within range,
    [a + (-b)] and [a - b] return the same asset, or fail with an error of
    the same kind. *)
Theorem add_neg_is_sub (a b : asset) :
  within (amount a) -> within (amount b) ->
  (forall r, op_add a (op_neg b) = Ok r <-> op_sub a b = Ok r)
  /\ (forall k, fails (op_add a (op_neg b)) k <-> fails (op_sub a b) k).
Proof.
  intros Ha Hb. destruct (op_neg_within b Hb) as [-> Hnb].
  rewrite op_add_run, op_sub_run. cbn zeta. cbn [amount symbol].
  rewrite (add64_exact _ _ Ha Hnb), (sub64_exact _ _ Ha Hb).
  replace (amount a + - amount b) with (amount a - amount b) by lia.
  destruct (Symbol.eqb (symbol b) (symbol a)).
  - destruct (- max_amount <=? amount a - amount b).
    + destruct (amount a - amount b <=? max_amount).
      * split; intros; reflexivity.
      * split; intros; [split; discriminate|].
        rewrite !fails_Error. reflexivity.
    + split; intros; [split; discriminate|].
      rewrite !fails_Error. reflexivity.
  - split; intros; [split; discriminate|].
    rewrite !fails_Error. reflexivity.
Qed.

Lemma add_neg_is_sub_witness :
  op_add (mk 3 SYS2) (op_neg (mk 4 SYS2)) = Ok (mk (-1) SYS2).
Proof.
  destruct (add_neg_is_sub (mk 3 SYS2) (mk 4 SYS2)) as [H _];
    [range_literal | range_literal |].
  apply H. reflexivity.
Defined.

(** X7.  Unary minus is exact and undoes itself on every 64-bit amount but
    the most negative one; it keeps the symbol and performs no check. *)
Theorem neg_involutive (a : asset) :
  is_int64 (amount a) -> amount a <> int64_min ->
  amount (op_neg a) = - amount a
  /\ symbol (op_neg a) = symbol a
  /\ op_neg (op_neg a) = a.
Proof.
  intros Ha Hm. unfold op_neg. cbn [amount symbol]. unfold neg64.
  assert (Hn : is_int64 (- amount a))
    by (unfold is_int64, int64_min, int64_max in *; lia).
  rewrite (wrap64_small _ Hn), Z.opp_involutive, (wrap64_small _ Ha).
  repeat split. symmetry. apply asset_eta.
Qed.

Lemma neg_involutive_witness :
  op_neg (op_neg (mk (-5) SYS2)) = mk (-5) SYS2.
Proof.
  apply (neg_involutive (mk (-5) SYS2)); range_literal.
Defined.

(** X8.  Division undoes scaling: when [a * s] returns [r] for a non-zero
    factor [s], then [r / s] returns [a]. *)
Theorem mul_then_div (a : asset) (s : Z) (r : asset) :
  is_int64 (amount a) -> is_int64 s -> s <> 0 ->
  op_mul a s = Ok r -> op_div r s = Ok a.
Proof.
  intros Ha Hs Hs0 E.
  destruct (op_mul_Ok a s r Ha Hs E) as [-> Hr].
  destruct (op_div_within (mk (amount a * s) (symbol a)) s Hr Hs0) as [-> _].
  cbn [amount symbol]. rewrite Z.quot_mul by assumption.
  rewrite <- asset_eta. reflexivity.
Qed.

Lemma mul_then_div_witness :
  op_div (mk (-42) SYS2) (-2) = Ok (mk 21 SYS2).
Proof.
  apply (mul_then_div (mk 21 SYS2) (-2) (mk (-42) SYS2));
    [range_literal | range_literal | lia | reflexivity].
Defined.

(** X9.  Scaling by 0, 1 and -1: [a * 0] returns the zero asset of the same
    symbol whatever the amount of [a]; [a * 1] returns [a] and [a * -1]
    returns [-a] when the amount of [a] is within range, and [a * 1] fails
    with a RangeError when it is not. *)
Theorem scale_units (a : asset) :
  is_int64 (amount a) ->
  op_mul a 0 = Ok (mk 0 (symbol a))
  /\ (within (amount a) -> op_mul a 1 = Ok a /\ op_mul a (-1) = Ok (op_neg a))
  /\ (~ within (amount a) -> fails (op_mul a 1) RangeError).
Proof.
  intros Ha.
  assert (H0 : is_int64 0) by range_literal.
  assert (H1 : is_int64 1) by range_literal.
  assert (Hm1 : is_int64 (-1)) by range_literal.
  unfold op_mul, on_copy. split; [|split].
  - destruct (op_mul_assign_int64 a 0 Ha H0) as [[_ E]|[Hout _]].
    + rewrite E. f_equal. f_equal. lia.
    + rewrite max_amount_eq in Hout. lia.
  - intros Hw. split.
    + destruct (op_mul_assign_int64 a 1 Ha H1) as [[_ E]|[Hout _]].
      * rewrite E, Z.mul_1_r, <- asset_eta. reflexivity.
      * unfold within in Hw. lia.
    + destruct (op_neg_within a Hw) as [-> _].
      destruct (op_mul_assign_int64 a (-1) Ha Hm1) as [[_ E]|[Hout _]].
      * rewrite E. f_equal. f_equal. lia.
      * unfold within in Hw. lia.
  - intros Hw.
    destruct (op_mul_assign_int64 a 1 Ha H1) as [[Hin _]|[_ (msg & E & K)]].
    + exfalso. apply Hw. unfold within. lia.
    + rewrite E. exists msg. auto.
Qed.

Lemma scale_units_witness :
  op_mul (mk (max_amount + 1) SYS2) 0 = Ok (mk 0 SYS2)
  /\ fails (op_mul (mk (max_amount + 1) SYS2) 1) RangeError.
Proof.
  destruct (scale_units (mk (max_amount + 1) SYS2)) as (H0 & _ & H1);
    [range_literal|].
  split; [exact H0|]. apply H1. range_literal.
Defined.

(** X10.  Dividing an asset whose amount is within range by a non-zero
    integer always succeeds: the overflow check cannot fire, and the
    quotient is no larger in magnitude than the dividend, hence within
    range. *)
Theorem div_within_succeeds (a : asset) (s : Z) :
  within (amount a) -> s <> 0 ->
  op_div a s = Ok (mk (Z.quot (amount a) s) (symbol a))
  /\ Z.abs (Z.quot (amount a) s) <= Z.abs (amount a)
  /\ within (Z.quot (amount a) s)
  /\ ~ fails (op_div a s) OverflowError.
Proof.
  intros Ha Hs. destruct (op_div_within a s Ha Hs) as [E Hq].
  rewrite E. split; [reflexivity|]. split; [assumption|]. split.
  - unfold within in *. lia.
  - apply fails_Ok.
Qed.

Lemma div_within_succeeds_witness :
  op_div (mk (- max_amount) SYS2) (-1) = Ok (mk max_amount SYS2).
Proof.
  apply (div_within_succeeds (mk (- max_amount) SYS2) (-1));
    [range_literal | lia].
Defined.

(** X11.  On a receiver whose symbol is valid, [set_amount(a)] accepts and
    rejects exactly as constructing [asset(a, symbol)] does, and leaves the
    asset the constructor would build. *)
Theorem set_amount_as_ctor (a : Z) (this : asset) :
  Symbol.is_valid (symbol this) = true ->
  (forall r, set_amount a this = Returns tt r <-> ctor a (symbol this) = Ok r)
  /\ (forall k, aborts (set_amount a this) k
                <-> fails (ctor a (symbol this)) k).
Proof.
  intros Hv. rewrite set_amount_run, ctor_run, Hv. cbn zeta.
  destruct (is_amount_within_range (mk a (symbol this))).
  - split; intros.
    + split; intros [= <-]; reflexivity.
    + split; intros H; settle.
  - split; intros.
    + split; discriminate.
    + rewrite fails_Error. split.
      * intros (m & t & [= <- <-] & K). exact K.
      * intros K. eexists. eexists. split; [reflexivity | exact K].
Qed.

Lemma set_amount_as_ctor_witness :
  ctor 9 SYS2 = Ok (mk 9 SYS2)
  /\ fails (ctor (max_amount + 1) SYS2) RangeError.
Proof.
  destruct (set_amount_as_ctor 9 (mk 7 SYS2) eq_refl) as [H _].
  destruct (set_amount_as_ctor (max_amount + 1) (mk 7 SYS2) eq_refl)
    as [_ K].
  split.
  - apply H. reflexivity.
  - apply K. failing.
Defined.

(** X12.  Addition of assets within range is associative wherever both
    groupings go through: if [(a + b) + c] returns [r] and [b + c] returns
    [bc], then [a + bc] returns [r]. *)
Theorem add_associative (a b c ab bc r : asset) :
  within (amount a) -> within (amount b) -> within (amount c) ->
  op_add a b = Ok ab -> op_add ab c = Ok r -> op_add b c = Ok bc ->
  op_add a bc = Ok r.
Proof.
  intros Ha Hb Hc Eab Er Ebc.
  apply op_add_Ok in Eab. destruct Eab as (Sab & -> & Wab).
  apply op_add_Ok in Ebc. destruct Ebc as (Sbc & -> & Wbc).
  apply op_add_Ok in Er. cbn [amount symbol] in Er.
  destruct Er as (Sac & -> & Wr).
  rewrite (add64_exact _ _ Ha Hb) in *.
  rewrite (add64_exact _ _ Hb Hc) in *.
  rewrite (add64_exact _ _ Wab Hc) in *.
  rewrite op_add_within; cbn [amount symbol];
    try assumption; try congruence.
  - f_equal. f_equal. lia.
  - replace (amount a + (amount b + amount c))
      with (amount a + amount b + amount c) by lia. assumption.
Qed.

Lemma add_associative_witness :
  op_add (mk 1 SYS2) (mk 5 SYS2) = Ok (mk 6 SYS2).
Proof.
  apply (add_associative (mk 1 SYS2) (mk 2 SYS2) (mk 3 SYS2)
                         (mk 3 SYS2) (mk 5 SYS2) (mk 6 SYS2));
    try range_literal; reflexivity.
Defined.

(** X13.  The rendering of an amount whose integer part is not negative.
    For a valid symbol of precision [p] and a 64-bit amount above [-10^p],
    [to_string] returns, uncut: one minus sign if the amount is negative, the
    integer part of the magnitude in decimal, a dot, exactly [p] decimal
    digits that read as the magnitude modulo [10^p], one space, and the
    code. *)
Theorem to_string_exact (this : asset) :
  let p := Symbol.precision (symbol this) in
  Symbol.is_valid (symbol this) = true -> is_int64 (amount this) ->
  - 10 ^ p < amount this ->
  exists digits,
    to_string this =
      ((if (amount this <? 0)%Z then "-" else "")
       ++ lld (Z.abs (amount this) / 10 ^ p)%Z ++ "." ++ digits ++ " "
       ++ Symbol.code (symbol this))%string
    /\ 0 <= Z.abs (amount this) / 10 ^ p
    /\ String.length digits = Z.to_nat p
    /\ all_digits digits = true
    /\ value_of 0 digits = Z.abs (amount this) mod 10 ^ p.
Proof.
  intros p Hv Ha Hlow.
  destruct (RenderFacts.pow10_of_valid _ Hv) as (_ & _ & Hb). fold p in Hb.
  destruct (to_string_shape this Hv Ha) as (digits & E & Hd). fold p in E, Hd.
  exists digits. split; [|split; [apply Z.div_pos; lia | exact Hd]].
  rewrite E.
  replace (Z.quot (amount this) (10 ^ p))
    with (Z.abs (amount this) / 10 ^ p); [reflexivity|].
  destruct (Z.le_gt_cases 0 (amount this)) as [Hpos|Hneg].
  - rewrite Z.abs_eq by assumption. symmetry. apply Z.quot_div_nonneg; lia.
  - rewrite (Z.div_small (Z.abs (amount this))) by lia.
    symmetry. apply Z.quot_small_iff; lia.
Qed.

Lemma to_string_exact_witness :
  exists digits,
    to_string (mk (-5) SYS2) = ("-" ++ "0" ++ "." ++ digits ++ " SYS")%string
    /\ value_of 0 digits = 5.
Proof.
  destruct (to_string_exact (mk (-5) SYS2))
    as (digits & E & _ & _ & _ & V);
    [reflexivity | range_literal | cbn; lia |].
  exists digits. split; [exact E | exact V].
Defined.

(** X14.  The rendering of an amount whose integer part is negative.  For a
    valid symbol of precision [p] and a 64-bit amount of [-10^p] or below,
    [to_string] returns two minus signs, then the integer part of the
    magnitude, a dot, [p] digits that read as the magnitude modulo [10^p],
    a space and the code. *)
Theorem to_string_doubled_sign (this : asset) :
  let p := Symbol.precision (symbol this) in
  Symbol.is_valid (symbol this) = true -> is_int64 (amount this) ->
  amount this <= - 10 ^ p ->
  exists digits,
    to_string this =
      ("--" ++ lld (Z.abs (amount this) / 10 ^ p)%Z ++ "." ++ digits ++ " "
       ++ Symbol.code (symbol this))%string
    /\ 0 < Z.abs (amount this) / 10 ^ p
    /\ String.length digits = Z.to_nat p
    /\ all_digits digits = true
    /\ value_of 0 digits = Z.abs (amount this) mod 10 ^ p.
Proof.
  intros p Hv Ha Hlow.
  destruct (RenderFacts.pow10_of_valid _ Hv) as (_ & _ & Hb). fold p in Hb.
  destruct (to_string_shape this Hv Ha) as (digits & E & Hd). fold p in E, Hd.
  assert (Hq : 0 < Z.abs (amount this) / 10 ^ p)
    by (apply Z.div_str_pos; lia).
  exists digits. split; [|split; [exact Hq | exact Hd]].
  rewrite E.
  assert (Hneg : (amount this <? 0) = true) by (apply Z.ltb_lt; lia).
  rewrite Hneg.
  replace (Z.quot (amount this) (10 ^ p))
    with (- (Z.abs (amount this) / 10 ^ p)).
  - rewrite lld_opp by exact Hq. reflexivity.
  - rewrite <- Z.quot_div_nonneg by lia.
    rewrite <- Z.quot_opp_l by lia. f_equal. lia.
Qed.

Lemma to_string_doubled_sign_witness :
  exists digits,
    to_string (mk (-150) SYS2) = ("--" ++ "1" ++ "." ++ digits ++ " SYS")%string
    /\ value_of 0 digits = 50.
Proof.
  destruct (to_string_doubled_sign (mk (-150) SYS2))
    as (digits & E & _ & _ & _ & V);
    [reflexivity | range_literal | cbn; lia |].
  exists digits. split; [exact E | exact V].
Defined.

(** X15.  The contract gate of extended-asset arithmetic: [a + b], [a - b],
    [a += b] and [a -= b] fail with an OwnershipMismatchError exactly when
    the contracts differ, whatever the symbols and amounts, and the in-place
    forms then leave the receiver as it was. *)
Theorem extended_gate (a b : ExtendedAsset.extended_asset) :
  let differ := ExtendedAsset.contract a <> ExtendedAsset.contract b in
  (fails (ExtendedAsset.op_add a b) OwnershipMismatchError <-> differ)
  /\ (fails (ExtendedAsset.op_sub a b) OwnershipMismatchError <-> differ)
  /\ (aborts (ExtendedAsset.op_add_assign b a) OwnershipMismatchError
      <-> differ)
  /\ (aborts (ExtendedAsset.op_sub_assign b a) OwnershipMismatchError
      <-> differ)
  /\ (differ ->
      ExtendedAsset.op_add_assign b a = Aborts "type mismatch" a
      /\ ExtendedAsset.op_sub_assign b a = Aborts "type mismatch" a).
Proof.
  intros differ. subst differ.
  rewrite ext_add_run, ext_sub_run, ext_add_assign_run, ext_sub_assign_run.
  destruct (name_eqb (ExtendedAsset.contract a) (ExtendedAsset.contract b))
    eqn:Ec.
  - apply name_eqb_eq in Ec.
    pose proof (asset_add_not_ownership (ExtendedAsset.quantity a)
                                        (ExtendedAsset.quantity b)) as Hadd.
    pose proof (asset_sub_not_ownership (ExtendedAsset.quantity a)
                                        (ExtendedAsset.quantity b)) as Hsub.
    rewrite !fails_map, !aborts_on_quantity, <- !fails_on_copy.
    fold (op_add (ExtendedAsset.quantity a) (ExtendedAsset.quantity b)).
    fold (op_sub (ExtendedAsset.quantity a) (ExtendedAsset.quantity b)).
    tauto.
  - apply name_eqb_neq in Ec.
    repeat split; intros; settle.
Qed.

(** X16.  The by-value and the in-place arithmetic of extended assets
    agree: [a + b] returns what [a += b] leaves in a copy of [a], and fails
    with the same message when [a += b] aborts; likewise [a - b] and
    [a -= b]. *)
Theorem extended_by_value_in_place (a b : ExtendedAsset.extended_asset) :
  ExtendedAsset.op_add a b = on_copy a (ExtendedAsset.op_add_assign b)
  /\ ExtendedAsset.op_sub a b = on_copy a (ExtendedAsset.op_sub_assign b).
Proof.
  rewrite ext_add_run, ext_sub_run. unfold on_copy.
  rewrite ext_add_assign_run, ext_sub_assign_run.
  destruct (name_eqb (ExtendedAsset.contract a) (ExtendedAsset.contract b));
    [|split; reflexivity].
  unfold ExtendedAsset.on_quantity, op_add, op_sub, on_copy.
  destruct (op_add_assign (ExtendedAsset.quantity b)
                          (ExtendedAsset.quantity a));
    destruct (op_sub_assign (ExtendedAsset.quantity b)
                            (ExtendedAsset.quantity a));
    split; reflexivity.
Qed.

(** X17.  Extended-asset arithmetic keeps the extended symbol: when [a + b]
    or [a - b] returns [r], the two operands had the same extended symbol
    (symbol and contract) and [r] carries it; negation keeps it too. *)
Theorem extended_symbol_kept (a b r : ExtendedAsset.extended_asset) :
  ExtendedAsset.op_add a b = Ok r \/ ExtendedAsset.op_sub a b = Ok r ->
  ExtendedAsset.get_extended_symbol r = ExtendedAsset.get_extended_symbol a
  /\ ExtendedAsset.get_extended_symbol b
     = ExtendedAsset.get_extended_symbol a
  /\ ExtendedAsset.get_extended_symbol (ExtendedAsset.op_neg r)
     = ExtendedAsset.get_extended_symbol a.
Proof.
  rewrite ext_add_run, ext_sub_run.
  unfold ExtendedAsset.get_extended_symbol, ExtendedAsset.op_neg.
  cbn [ExtendedAsset.quantity ExtendedAsset.contract op_neg symbol].
  destruct (name_eqb (ExtendedAsset.contract a) (ExtendedAsset.contract b))
    eqn:Ec; [|intros [H|H]; discriminate].
  apply name_eqb_eq in Ec.
  intros [H|H].
  - destruct (op_add (ExtendedAsset.quantity a) (ExtendedAsset.quantity b))
      as [q|] eqn:E; [|discriminate].
    apply op_add_Ok in E. destruct E as (Hs & -> & _).
    injection H as <-. cbn [ExtendedAsset.quantity ExtendedAsset.contract symbol].
    rewrite <- Hs, <- Ec. auto.
  - destruct (op_sub (ExtendedAsset.quantity a) (ExtendedAsset.quantity b))
      as [q|] eqn:E; [|discriminate].
    apply op_sub_Ok in E. destruct E as (Hs & -> & _).
    injection H as <-. cbn [ExtendedAsset.quantity ExtendedAsset.contract symbol].
    rewrite <- Hs, <- Ec. auto.
Qed.

Lemma extended_symbol_kept_witness :
  ExtendedAsset.get_extended_symbol (ExtendedAsset.mk (mk 3 SYS2) 1)
  = ExtendedAsset.get_extended_symbol (ExtendedAsset.mk (mk 1 SYS2) 1).
Proof.
  apply (extended_symbol_kept (ExtendedAsset.mk (mk 1 SYS2) 1)
                              (ExtendedAsset.mk (mk 2 SYS2) 1)
                              (ExtendedAsset.mk (mk 3 SYS2) 1)).
  left. reflexivity.
Defined.

(** X18.  Constructing an extended asset from an amount and an extended
    symbol applies the checks of the asset constructor, range first: it
    succeeds exactly when the amount is within range and the symbol valid,
    and the value built then has a valid quantity of that amount and gives
    the extended symbol back. *)
Theorem ctor_of_symbol_checks (v : Z) (s : extended_symbol) :
  (forall r, ExtendedAsset.ctor_of_symbol v s = Ok r <->
             within v /\ Symbol.is_valid (get_symbol s) = true
             /\ r = ExtendedAsset.mk (mk v (get_symbol s)) (get_contract s))
  /\ (forall r, ExtendedAsset.ctor_of_symbol v s = Ok r ->
                ExtendedAsset.get_extended_symbol r = s
                /\ is_valid (ExtendedAsset.quantity r) = true)
  /\ (fails (ExtendedAsset.ctor_of_symbol v s) RangeError <-> ~ within v)
  /\ (fails (ExtendedAsset.ctor_of_symbol v s) InvalidSymbolError
      <-> within v /\ Symbol.is_valid (get_symbol s) = false).
Proof.
  unfold ExtendedAsset.ctor_of_symbol. cbn. rewrite ctor_run.
  destruct (is_amount_within_range (mk v (get_symbol s))) eqn:Er.
  - assert (Hw : within v).
    { apply is_amount_within_range_iff in Er. exact Er. }
    destruct (Symbol.is_valid (get_symbol s)) eqn:Es.
    + split; [|split; [|split]].
      * intros r. split.
        -- intros [= <-]. auto.
        -- intros (_ & _ & ->). reflexivity.
      * intros r [= <-]. split; [destruct s; reflexivity|].
        unfold is_valid. cbn [ExtendedAsset.quantity symbol].
        rewrite Er, Es. reflexivity.
      * split; intros H; [not_failing H | contradiction].
      * split; intros H; [not_failing H | destruct H; discriminate].
    + split; [|split; [|split]].
      * intros r. split; [discriminate|].
        intros (_ & Hf & _). discriminate Hf.
      * intros r. discriminate.
      * split; intros H; [not_failing H | contradiction].
      * split; intros H; [auto | failing].
  - assert (Hw : ~ within v).
    { intros Hw. change v with (amount (mk v (get_symbol s))) in Hw.
      apply is_amount_within_range_iff in Hw. congruence. }
    split; [|split; [|split]].
    + intros r. split; [discriminate | tauto].
    + intros r. discriminate.
    + split; intros H; [assumption | failing].
    + split; intros H; [not_failing H | tauto].
Qed.

(** X19.  Subtraction is antisymmetric: when [a - b] of two assets within
    range returns [r], then [b - a] returns [-r]. *)
Theorem sub_antisymmetric (a b r : asset) :
  within (amount a) -> within (amount b) -> op_sub a b = Ok r ->
  op_sub b a = Ok (op_neg r).
Proof.
  intros Ha Hb E. apply op_sub_Ok in E. destruct E as (Hs & -> & Hr).
  rewrite (sub64_exact _ _ Ha Hb) in *.
  destruct (op_neg_within (mk (amount a - amount b) (symbol a)) Hr)
    as [-> Hn].
  cbn [amount symbol] in *.
  rewrite op_sub_within; try assumption; try congruence.
  - f_equal. f_equal; [lia | congruence].
  - replace (amount b - amount a) with (- (amount a - amount b)) by lia.
    assumption.
Qed.

Lemma sub_antisymmetric_witness :
  op_sub (mk 4 SYS2) (mk 3 SYS2) = Ok (op_neg (mk (-1) SYS2)).
Proof.
  apply (sub_antisymmetric (mk 3 SYS2) (mk 4 SYS2) (mk (-1) SYS2));
    [range_literal | range_literal | reflexivity].
Defined.

(** X20.  Addition preserves the order: if [a < b] answers [true] and both
    [a + c] and [b + c] return, the first sum is [<] the second. *)
Theorem add_monotone (a b c ra rb : asset) :
  within (amount a) -> within (amount b) -> within (amount c) ->
  op_lt a b = Ok true -> op_add a c = Ok ra -> op_add b c = Ok rb ->
  op_lt ra rb = Ok true.
Proof.
  intros Ha Hb Hc Hlt Ea Eb.
  apply op_add_Ok in Ea. destruct Ea as (_ & -> & _).
  apply op_add_Ok in Eb. destruct Eb as (_ & -> & _).
  rewrite (add64_exact _ _ Ha Hc), (add64_exact _ _ Hb Hc).
  revert Hlt. unfold op_lt. cbn.
  destruct (Symbol.eqb (symbol a) (symbol b)); [|discriminate].
  cbn. intros [= H]. f_equal.
  apply Z.ltb_lt in H. apply Z.ltb_lt. lia.
Qed.

Lemma add_monotone_witness :
  op_lt (mk 11 SYS2) (mk 12 SYS2) = Ok true.
Proof.
  apply (add_monotone (mk 1 SYS2) (mk 2 SYS2) (mk 10 SYS2));
    try range_literal; reflexivity.
Defined.

(** X21.  Scaling distributes over addition wherever every step goes
    through: if [(a + b) * s] returns [r] and [a * s], [b * s] return [pa],
    [pb], then [pa + pb] returns [r]. *)
Theorem mul_distributes (a b ab pa pb r : asset) (s : Z) :
  within (amount a) -> within (amount b) -> is_int64 s ->
  op_add a b = Ok ab -> op_mul ab s = Ok r ->
  op_mul a s = Ok pa -> op_mul b s = Ok pb ->
  op_add pa pb = Ok r.
Proof.
  intros Ha Hb Hs Eab Er Epa Epb.
  apply op_add_Ok in Eab. destruct Eab as (Sab & -> & Wab).
  rewrite (add64_exact _ _ Ha Hb) in *.
  destruct (op_mul_Ok (mk (amount a + amount b) (symbol a)) s r
                      (within_int64 _ Wab) Hs Er) as [-> Wr].
  destruct (op_mul_Ok _ _ _ (within_int64 _ Ha) Hs Epa) as [-> Wpa].
  destruct (op_mul_Ok _ _ _ (within_int64 _ Hb) Hs Epb) as [-> Wpb].
  cbn [amount symbol] in *.
  rewrite op_add_within; cbn [amount symbol]; try assumption.
  - f_equal. f_equal. lia.
  - replace (amount a * s + amount b * s)
      with ((amount a + amount b) * s) by lia. assumption.
Qed.

Lemma mul_distributes_witness :
  op_add (mk 6 SYS2) (mk 9 SYS2) = Ok (mk 15 SYS2).
Proof.
  apply (mul_distributes (mk 2 SYS2) (mk 3 SYS2) (mk 5 SYS2)
                         (mk 6 SYS2) (mk 9 SYS2) (mk 15 SYS2) 3);
    try range_literal; reflexivity.
Defined.

(** X22.  Division by an integer truncates toward zero, so it commutes
    with negation: when [a / s] returns [r] for an asset within range, then
    [(-a) / s] returns [-r]. *)
Theorem div_neg (a : asset) (s : Z) (r : asset) :
  within (amount a) -> s <> 0 -> op_div a s = Ok r ->
  op_div (op_neg a) s = Ok (op_neg r).
Proof.
  intros Ha Hs E.
  destruct (op_div_within a s Ha Hs) as [E' Hq]. rewrite E' in E.
  injection E as <-.
  destruct (op_neg_within a Ha) as [-> Hn].
  destruct (op_div_within (mk (- amount a) (symbol a)) s Hn Hs) as [-> _].
  assert (Hw : within (Z.quot (amount a) s))
    by (unfold within in *; lia).
  destruct (op_neg_within (mk (Z.quot (amount a) s) (symbol a)) Hw)
    as [-> _].
  cbn [amount symbol]. rewrite Z.quot_opp_l by assumption. reflexivity.
Qed.

Lemma div_neg_witness :
  op_div (op_neg (mk 7 SYS2)) 2 = Ok (op_neg (mk 3 SYS2)).
Proof.
  apply (div_neg (mk 7 SYS2) 2 (mk 3 SYS2));
    [range_literal | lia | reflexivity].
Defined.

End Extras.
